(** * node-hot-reload: the reload engine, the control object and the loader hooks

    A shallow embedding of [src/index.ts] (the file whose compiled form is
    [dist/index.js]).  The module keeps four process-wide objects, [_cfg],
    [_graph], [_registry] and [_watcher]; together with Node's
    [require.cache], [process.mainModule] and the constructor objects the
    patcher rewrites, they form the [State] every operation threads through.

    Modelling conventions.
    - A JavaScript object that is shared and mutated is kept in a store and
      named by a key: a [RegistryEntry] by the key it is registered under in
      [_registry] ([registerFile] is the only place that constructs one, and
      it stores it under that key for good), a constructor or prototype object
      by its address in [heap].
    - A call that leaves this file (into Node's loader or into chokidar) is
      recorded in [trace], or returned as an output of the operation.
    - User procedures handed to [hot.store] are total functions on the stash
      they receive. *)

From Stdlib Require Import Ascii String.
From stdpp Require Import gmap strings list fin_maps.

Set Default Proof Using "Type".
Set Warnings "-clear-no-such-hyp".

(** ** Values *)

Abbreviation addr := nat.

(** The JavaScript values the hooks can tell apart. *)
#[warnings="-register-all"]
Inductive Value :=
| VUndefined
| VNull
| VBoolean (b : bool)
| VNumber (n : Z)
| VString (s : string)
| VArrow (code : nat)                     (* a callable without a prototype *)
| VClass (c : addr)                       (* a constructor, by identity *)
| VObject (own : list (string * Value)).  (* a plain object, own properties in order *)

Abbreviation Object := (list (string * Value)).

Definition typeof (v : Value) : string :=
  match v with
  | VUndefined => "undefined"
  | VNull => "object"
  | VBoolean _ => "boolean"
  | VNumber _ => "number"
  | VString _ => "string"
  | VArrow _ => "function"
  | VClass _ => "function"
  | VObject _ => "object"
  end.

(** Modelled from the spec: [isPlainObject] of [./utils] is not among the
    sources; a plain mapping is an object literal. *)
Definition isPlainObject (v : Value) : bool :=
  match v with VObject _ => true | _ => false end.

(** Modelled from the spec: [isConstructorLike] of [./utils] is not among the
    sources; a value is constructor-like when it is a constructor identity. *)
Definition isConstructorLike (v : Value) : bool :=
  match v with VClass _ => true | _ => false end.

(** [o[key] = v]: an existing own property keeps its place, a new one goes last. *)
Fixpoint set_property (o : Object) (key : string) (v : Value) : Object :=
  match o with
  | [] => [(key, v)]
  | (k, w) :: rest =>
      if decide (k = key) then (k, v) :: rest else (k, w) :: set_property rest key v
  end.

Fixpoint get_property (o : Object) (key : string) : option Value :=
  match o with
  | [] => None
  | (k, w) :: rest => if decide (k = key) then Some w else get_property rest key
  end.

(** ** Heap objects: constructors and their prototypes *)

(** An object of the heap.  [own] holds the own fields that can be
    assigned; the read-only [name] and [prototype] of a constructor are kept
    apart, in [ctor]. *)
Record Obj := {
  own : Object;
  proto : option addr;           (* [Object.getPrototypeOf] *)
  ctor : option (string * addr)  (* of a constructor: its [name] and its [prototype] *)
}.

Abbreviation Heap := (gmap addr Obj).

(** ** The dependency graph *)

Module Graph.

(** Modelled from the spec: [./graph] is not among the sources.  "A set of
    directed edges (dependent -> dependency)"; kept in insertion order so
    that [getDependantsOf] is deterministic. *)
Abbreviation t := (list (string * string)).

Definition empty : t := [].

(** Inserts the directed edge; no-op if present. *)
Definition addDependency (g : t) (dependent dependency : string) : t :=
  if decide ((dependent, dependency) ∈ g) then g else g ++ [(dependent, dependency)].

(** Every dependent with a live edge to [dependency]. *)
Definition getDependantsOf (g : t) (dependency : string) : list string :=
  (filter (λ e, e.2 = dependency) g).*1.

(** Deletes every outgoing edge of [dependent]; returns the dependencies
    that no other dependent points at afterwards. *)
Definition removeDependencies (g : t) (dependent : string) : t * list string :=
  let g' := filter (λ e, e.1 ≠ dependent) g in
  let deps := remove_dups (filter (λ e, e.1 = dependent) g).*2 in
  (g', filter (λ d, getDependantsOf g' d = []) deps).

End Graph.

(** ** Configuration *)

(** A [RegExp], as far as [test] goes. *)
Definition RegExp := string → bool.

Record Options := {
  silent : bool;
  cfg_patchExports : bool;
  exclude : list RegExp
}.

(** The argument of [configure]: every option may be left out. *)
Record PartialOptions := {
  opt_silent : option bool;
  opt_patchExports : option bool;
  opt_exclude : option (list RegExp)
}.

Definition is_separator (c : ascii) : bool :=
  bool_decide (c = "/"%char) || bool_decide (c = "\"%char).

Fixpoint starts_with (p s : string) : option string :=
  match p, s with
  | EmptyString, _ => Some s
  | String a p', String b s' => if decide (a = b) then starts_with p' s' else None
  | String _ _, EmptyString => None
  end.

(** [/[\/\\]node_modules[\/\\]/.test(path)] *)
Fixpoint node_modules_re (path : string) : bool :=
  match path with
  | EmptyString => false
  | String c rest =>
      (is_separator c &&
       match starts_with "node_modules" rest with
       | Some (String d _) => is_separator d
       | _ => false
       end)
      || node_modules_re rest
  end.

(** Modelled from the spec: [isEligible] of [./utils] is not among the
    sources; "paths matching any pattern are ineligible". *)
Definition isEligible (cfg : Options) (path : string) : bool :=
  negb (existsb (λ re : RegExp, re path) (exclude cfg)).

(** ** Modules and registry entries *)

(** A module record of the loader: its identity and the fields read here.
    [hot] holds the registry key the control object writes to. *)
Record NodeModule := {
  m_id : nat;
  m_filename : string;
  m_hot : option string;
  m_exports : Value
}.

(** [a === b] on module records. *)
Definition same_module (a b : NodeModule) : bool := bool_decide (m_id a = m_id b).

(** A procedure handed to [hot.store]: it is given a stash and leaves its
    writes in it. *)
Definition StashCallback := Object → Object.

(** [class RegistryEntry].  [store] is [None] for the default [() => { }]
    and [Some stasher] for the closure [hot.store] installs.  The field
    [mod] is spelled [mod_], [mod] being taken by arithmetic. *)
Record RegistryEntry := {
  mod_ : NodeModule;
  filename : string;
  accepted : bool;
  stash : option Object;
  patchees : gmap string (list addr);
  store : option StashCallback
}.

Definition new_RegistryEntry (m : NodeModule) (file : string) : RegistryEntry :=
  {| mod_ := m; filename := file; accepted := false; stash := None;
     patchees := ∅; store := None |}.

(** ** Calls that leave the file *)

Inductive Event :=
| EvStore (entry : string)              (* [entry.store()], by registry key *)
| EvEvict (file : string)               (* [delete require.cache[file]] *)
| EvRemoveDependencies (file : string)  (* [_graph.removeDependencies(file)] *)
| EvUnwatch (file : string)             (* [_watcher.unwatch(file)] *)
| EvWatch (file : string)               (* [_watcher.add(file)] *)
| EvStasher (given left : Object)       (* a [restore] procedure: what it was given, and left *)
| EvPatch (entry : string) (constructors : list addr).  (* [hot.patch(...constructors)] *)

(** ** The state *)

Record State := {
  _cfg : Options;
  _graph : Graph.t;
  _registry : gmap string RegistryEntry;
  _watcher : gset string;
  require_cache : gmap string NodeModule;
  mainModule : option NodeModule;
  created : nat;                     (* module records made by the loader so far *)
  heap : Heap;
  trace : list Event
}.

Definition default_cfg : Options :=
  {| silent := false; cfg_patchExports := false; exclude := [node_modules_re] |}.

Definition initial (main : option NodeModule) : State :=
  {| _cfg := default_cfg; _graph := Graph.empty; _registry := ∅; _watcher := ∅;
     require_cache := ∅; mainModule := main; created := 0; heap := ∅; trace := [] |}.

Definition with_cfg (c : Options) (st : State) : State :=
  {| _cfg := c; _graph := _graph st; _registry := _registry st;
     _watcher := _watcher st; require_cache := require_cache st;
     mainModule := mainModule st; created := created st; heap := heap st; trace := trace st |}.

Definition with_graph (g : Graph.t) (st : State) : State :=
  {| _cfg := _cfg st; _graph := g; _registry := _registry st;
     _watcher := _watcher st; require_cache := require_cache st;
     mainModule := mainModule st; created := created st; heap := heap st; trace := trace st |}.

Definition with_registry (r : gmap string RegistryEntry) (st : State) : State :=
  {| _cfg := _cfg st; _graph := _graph st; _registry := r;
     _watcher := _watcher st; require_cache := require_cache st;
     mainModule := mainModule st; created := created st; heap := heap st; trace := trace st |}.

Definition with_watcher (w : gset string) (st : State) : State :=
  {| _cfg := _cfg st; _graph := _graph st; _registry := _registry st;
     _watcher := w; require_cache := require_cache st;
     mainModule := mainModule st; created := created st; heap := heap st; trace := trace st |}.

Definition with_cache (c : gmap string NodeModule) (st : State) : State :=
  {| _cfg := _cfg st; _graph := _graph st; _registry := _registry st;
     _watcher := _watcher st; require_cache := c;
     mainModule := mainModule st; created := created st; heap := heap st; trace := trace st |}.

Definition with_heap (h : Heap) (st : State) : State :=
  {| _cfg := _cfg st; _graph := _graph st; _registry := _registry st;
     _watcher := _watcher st; require_cache := require_cache st;
     mainModule := mainModule st; created := created st; heap := h; trace := trace st |}.

Definition with_loader (main : option NodeModule) (n : nat) (st : State) : State :=
  {| _cfg := _cfg st; _graph := _graph st; _registry := _registry st;
     _watcher := _watcher st; require_cache := require_cache st;
     mainModule := main; created := n; heap := heap st; trace := trace st |}.

Definition log (e : Event) (st : State) : State :=
  {| _cfg := _cfg st; _graph := _graph st; _registry := _registry st;
     _watcher := _watcher st; require_cache := require_cache st;
     mainModule := mainModule st; created := created st; heap := heap st; trace := trace st ++ [e] |}.

(** [_watcher.add(file)] and [_watcher.unwatch(file)]. *)
Definition watcher_add (file : string) (st : State) : State :=
  log (EvWatch file) (with_watcher ({[file]} ∪ _watcher st) st).

Definition watcher_unwatch (st : State) (file : string) : State :=
  log (EvUnwatch file) (with_watcher (_watcher st ∖ {[file]}) st).

(** [set.add(x)] on a [Set] iterated in insertion order. *)
Definition set_add (x : string) (s : list string) : list string :=
  if decide (x ∈ s) then s else s ++ [x].

(** [for (const x of xs) body], where the body may throw. *)
Definition for_of {A S : Type} (xs : list A) (body : A → S → option S) (s : S) : option S :=
  foldl (λ acc x, acc ≫= body x) (Some s) xs.

(** ** The reload engine *)

(** [entry.store()]: the default does nothing; the closure installed by
    [hot.store] sets [entry.stash = {}] and runs the stasher on it. *)
Definition run_store (entry : string) (e : RegistryEntry) (st : State) : State :=
  log (EvStore entry)
    match store e with
    | None => st
    | Some stasher =>
        with_registry
          (<[entry := {| mod_ := mod_ e; filename := filename e; accepted := accepted e;
                         stash := Some (stasher []); patchees := patchees e;
                         store := store e |}]> (_registry st)) st
    end.

(** Lines 131-141: mark, store, evict, drop the outgoing edges, unwatch. *)
Definition unload (entry : string) (e : RegistryEntry) (st : State) : State :=
  let st := run_store entry e st in
  let st := log (EvEvict (filename e)) (with_cache (delete (filename e) (require_cache st)) st) in
  let removed := Graph.removeDependencies (_graph st) (filename e) in
  let st := log (EvRemoveDependencies (filename e)) (with_graph removed.1 st) in
  foldl watcher_unwatch st removed.2.

Abbreviation Visit := (list string * gset string * State)%type.

(** Lines 149-152, the body of [for (const dependant of dependants)];
    [reload] is the recursive call. *)
Definition visit_dependant
    (reload : string → list string → gset string → State → option Visit)
    (dependant : string) (v : Visit) : option Visit :=
  let '(acceptees, reloaded, st) := v in
  match _registry st !! dependant with
  | Some _ =>
      if decide (dependant ∈ reloaded) then Some (acceptees, reloaded, st)
      else reload dependant acceptees reloaded st
  | None => Some (acceptees, reloaded, st)
  end.

(** [function reload(entry, acceptees, reloaded)], lines 126-157.  [entry]
    is the registry key of the entry object; [fuel] bounds the depth of the
    recursion. *)
Fixpoint reload (fuel : nat) (entry : string) (acceptees : list string)
    (reloaded : gset string) (st : State) : option Visit :=
  match fuel with
  | O => None
  | S fuel =>
      e ← _registry st !! entry;
      let reloaded := {[entry]} ∪ reloaded in
      let st := unload entry e st in
      let dependants := Graph.getDependantsOf (_graph st) (filename e) in
      if accepted e || bool_decide (dependants = []) then
        Some (set_add (filename e) acceptees, reloaded, st)
      else
        for_of dependants (visit_dependant (reload fuel)) (acceptees, reloaded, st)
  end.

(** The top-level call of the change handler: both sets start empty.  One
    unit of fuel per registry entry, and one to spare, is always enough
    (see [reload_entry_terminates]). *)
Definition reload_entry (entry : string) (st : State) : option Visit :=
  reload (S (size (_registry st))) entry [] ∅ st.

(** ** The registry *)

Definition set_accepted (b : bool) (e : RegistryEntry) : RegistryEntry :=
  {| mod_ := mod_ e; filename := filename e; accepted := b; stash := stash e;
     patchees := patchees e; store := store e |}.

Definition set_stash (s : option Object) (e : RegistryEntry) : RegistryEntry :=
  {| mod_ := mod_ e; filename := filename e; accepted := accepted e; stash := s;
     patchees := patchees e; store := store e |}.

Definition set_store (f : option StashCallback) (e : RegistryEntry) : RegistryEntry :=
  {| mod_ := mod_ e; filename := filename e; accepted := accepted e; stash := stash e;
     patchees := patchees e; store := f |}.

Definition set_patchees (p : gmap string (list addr)) (e : RegistryEntry) : RegistryEntry :=
  {| mod_ := mod_ e; filename := filename e; accepted := accepted e; stash := stash e;
     patchees := p; store := store e |}.

(** [function registerFile(mod, filename)], lines 164-172; the entry is
    returned by key. *)
Definition registerFile (m : NodeModule) (file : string) (st : State) : string * State :=
  match _registry st !! file with
  | Some _ => (file, st)
  | None => (file, with_registry (<[file := new_RegistryEntry m file]> (_registry st)) st)
  end.

(** ** The control object *)

(** [accept: () => { entry.accepted = true; }] *)
Definition hot_accept (entry : string) (st : State) : State :=
  with_registry (alter (set_accepted true) entry (_registry st)) st.

(** [store: stasher => { entry.store = () => { ... }; }] *)
Definition hot_store (entry : string) (stasher : StashCallback) (st : State) : State :=
  with_registry (alter (set_store (Some stasher)) entry (_registry st)) st.

(** [restore: stasher => { if (entry.stash) { stasher(entry.stash); entry.stash = null; } }].
    A stash is either [null] or an object, and every object is truthy. *)
Definition hot_restore (entry : string) (stasher : StashCallback) (st : State) : State :=
  match _registry st !! entry ≫= stash with
  | Some given =>
      let st := log (EvStasher given (stasher given)) st in
      with_registry (alter (set_stash None) entry (_registry st)) st
  | None => st
  end.

(** *** The patcher *)

Definition set_own (o : Object) (x : Obj) : Obj :=
  {| own := o; proto := proto x; ctor := ctor x |}.

Definition set_proto (p : option addr) (x : Obj) : Obj :=
  {| own := own x; proto := p; ctor := ctor x |}.

(** Modelled from the spec: [assign] of [./utils] is not among the sources;
    "copy every own field" of [source] whose type passes [filter] onto
    [target]. *)
Definition assign (target source : addr) (filter : string → bool) (h : Heap) : Heap :=
  match h !! source with
  | None => h
  | Some s =>
      foldl (λ h '(key, v),
               if filter (typeof v)
               then alter (λ x, set_own (set_property (own x) key v) x) target h
               else h)
            h (own s)
  end.

(** [c.name] and [c.prototype] of a constructor. *)
Definition constructor_of (h : Heap) (c : addr) : option (string * addr) :=
  h !! c ≫= ctor.

Definition is_function (type : string) : bool := bool_decide (type = "function").

(** The body of [for (const old of history)], lines 211-230.  Reading
    [.prototype] of something that is not a constructor throws. *)
Definition patch_old (current old : addr) (h : Heap) : option Heap :=
  '(_, current_prototype) ← constructor_of h current;
  '(_, old_prototype) ← constructor_of h old;
  let h := assign current old (λ type, negb (is_function type)) h in
  let h := assign old current is_function h in
  let h := assign old_prototype current_prototype is_function h in
  target ← proto <$> h !! current_prototype;
  Some (alter (set_proto target) old_prototype h).

(** [patch: (...constructors) => { ... }], lines 200-235. *)
Definition hot_patch (entry : string) (constructors : list addr) (st : State) : option State :=
  for_of constructors
    (λ current st,
       e ← _registry st !! entry;
       '(name, _) ← constructor_of (heap st) current;
       let history := default [] (patchees e !! name) in
       h ← for_of history (patch_old current) (heap st);
       let history := history ++ [current] in
       Some (with_heap h
               (with_registry
                  (<[entry := set_patchees (<[name := history]> (patchees e)) e]> (_registry st))
                  st)))
    (log (EvPatch entry constructors) st).

(** [function injectFile(mod, filename)], lines 179-237; the module record
    comes back with its control object, whose closures hold the entry. *)
Definition with_hot (entry : string) (m : NodeModule) : NodeModule :=
  {| m_id := m_id m; m_filename := m_filename m; m_hot := Some entry;
     m_exports := m_exports m |}.

Definition injectFile (m : NodeModule) (file : string) (st : State) : NodeModule * State :=
  match m_hot m with
  | Some _ => (m, st)
  | None =>
      let '(entry, st) := registerFile m file st in
      (with_hot entry m, st)
  end.

(** [function patchExports(mod)], lines 239-250; [mod.hot!] throws when
    there is no control object. *)
Definition patch_value (m : NodeModule) (xport : Value) (st : State) : option State :=
  match xport with
  | VClass c => hot ← m_hot m; hot_patch hot [c] st
  | _ => None
  end.

(** [Object.getOwnPropertyNames(v)] and [v[key]]. *)
Definition getOwnPropertyNames (v : Value) : list string :=
  match v with VObject o => o.*1 | _ => [] end.

Definition get (v : Value) (key : string) : Value :=
  match v with VObject o => default VUndefined (get_property o key) | _ => VUndefined end.

Definition patchExports (m : NodeModule) (st : State) : option State :=
  if isPlainObject (m_exports m) then
    for_of (getOwnPropertyNames (m_exports m))
      (λ key st,
         let xport := get (m_exports m) key in
         if isConstructorLike xport then patch_value m xport st else Some st)
      st
  else if isConstructorLike (m_exports m) then patch_value m (m_exports m) st
  else Some st.

(** [function configure(opts)]: [Object.assign(_cfg, opts)]. *)
Definition configure (opts : PartialOptions) (st : State) : State :=
  with_cfg {| silent := default (silent (_cfg st)) (opt_silent opts);
              cfg_patchExports := default (cfg_patchExports (_cfg st)) (opt_patchExports opts);
              exclude := default (exclude (_cfg st)) (opt_exclude opts) |} st.

(** ** The watcher handler and the loader hooks

    [_Module.require] and [_Module.load] are Node's own functions, saved
    before the hooks replace them, and [Module._resolveFilename] is Node's
    resolution; the code below is written over any three such functions. *)

Section Hooks.

Variable _resolveFilename : string → NodeModule → string.
Variable _Module_require : NodeModule → string → State → option (Value * State).
Variable _Module_load : NodeModule → string → State → option (NodeModule * State).

(** [caller !== process.mainModule] *)
Definition is_not_main (caller : NodeModule) (st : State) : bool :=
  match mainModule st with
  | Some main => negb (same_module caller main)
  | None => true
  end.

(** [Module.prototype.require = function (filename) { ... }], lines 59-80. *)
Definition Module_prototype_require (caller : NodeModule) (file : string) (st : State)
    : option (Value * State) :=
  '(xports, st) ← _Module_require caller file st;
  let modulePath := _resolveFilename file caller in
  if negb (isEligible (_cfg st) modulePath) then Some (xports, st)
  else
    match require_cache st !! modulePath with
    | None => Some (xports, st)
    | Some dependency =>
        let st :=
          if is_not_main caller st
          then with_graph
                 (Graph.addDependency (_graph st) (m_filename caller) (m_filename dependency)) st
          else st in
        let st := watcher_add (m_filename dependency) st in
        Some (xports, st)
    end.

(** [Module.prototype.load = function (filename) { ... }], lines 83-94; the
    module record [this] comes back as the call left it. *)
Definition Module_prototype_load (this : NodeModule) (file : string) (st : State)
    : option (NodeModule * State) :=
  let eligible := isEligible (_cfg st) file in
  let '(this, st) := if eligible then injectFile this file st else (this, st) in
  '(this, st) ← _Module_load this file st;
  if eligible && cfg_patchExports (_cfg st)
  then st ← patchExports this st; Some (this, st)
  else Some (this, st).

(** [_watcher.on('change', file => { ... })], lines 107-118.  Besides the
    state, the handler's calls of [_Module.require] come back, oldest first,
    each as the caller it was made on and the path it was given.  The calls
    of [log] are left out. *)
Definition on_change (file : string) (st : State)
    : option (list (NodeModule * string) * State) :=
  match _registry st !! file with
  | None => Some ([], st)
  | Some entry =>
      '(acceptees, _, st) ← reload_entry file st;
      for_of acceptees
        (λ acceptee '(calls, st),
           '(_, st) ← _Module_require (mod_ entry) acceptee st;
           Some (calls ++ [(mod_ entry, acceptee)], st))
        ([], st)
  end.

End Hooks.

(** ** Node's loader, as the hooks meet it

    Enough of the loader to run a program end to end: a cache miss makes a
    module record, caches it and calls [load] on it through the prototype,
    which is the hooked [load] once the hooks are installed; a module body
    is a list of statements; paths are absolute, so resolution is the
    identity.  This part is the environment, not the repository's code. *)

Module Node.

Inductive Stmt :=
| Require (request : string)        (* [require(request)] *)
| Accept                            (* [module.hot.accept()] *)
| Store (stasher : StashCallback)   (* [module.hot.store(stasher)] *)
| Restore (stasher : StashCallback) (* [module.hot.restore(stasher)] *)
| Patch (constructors : list addr)  (* [module.hot.patch(...constructors)] *)
| Exports (v : Value).              (* [module.exports = v] *)

(** The files on disk, by absolute path. *)
Definition Program := string → list Stmt.

Definition resolveFilename (request : string) (parent : NodeModule) : string := request.

Definition with_exports (v : Value) (m : NodeModule) : NodeModule :=
  {| m_id := m_id m; m_filename := m_filename m; m_hot := m_hot m; m_exports := v |}.

Definition new_Module (path : string) (st : State) : NodeModule :=
  {| m_id := created st; m_filename := path; m_hot := None; m_exports := VObject [] |}.

Definition execute (require : NodeModule → string → State → option (Value * State))
    (s : Stmt) (this : NodeModule) (st : State) : option (NodeModule * State) :=
  match s with
  | Require request => '(_, st) ← require this request st; Some (this, st)
  | Accept => hot ← m_hot this; Some (this, hot_accept hot st)
  | Store stasher => hot ← m_hot this; Some (this, hot_store hot stasher st)
  | Restore stasher => hot ← m_hot this; Some (this, hot_restore hot stasher st)
  | Patch constructors => hot ← m_hot this; st ← hot_patch hot constructors st; Some (this, st)
  | Exports v => Some (with_exports v this, st)
  end.

(** The unhooked [load]: the body of the file runs with [this] as [module]. *)
Definition load (require : NodeModule → string → State → option (Value * State))
    (body : list Stmt) (this : NodeModule) (st : State) : option (NodeModule * State) :=
  for_of body (λ s '(this, st), execute require s this st) (this, st).

Section Run.

Variable program : Program.

(** The unhooked [require], with the hooks installed on the prototype. *)
Fixpoint require (fuel : nat) (parent : NodeModule) (request : string) (st : State)
    : option (Value * State) :=
  match fuel with
  | O => None
  | S fuel =>
      let path := resolveFilename request parent in
      match require_cache st !! path with
      | Some m => Some (m_exports m, st)
      | None =>
          let m := new_Module path st in
          let st := with_loader (mainModule st) (S (created st))
                      (with_cache (<[path := m]> (require_cache st)) st) in
          '(m, st) ← Module_prototype_load
                       (λ this file,
                          load (Module_prototype_require resolveFilename (require fuel))
                               (program file) this)
                       m path st;
          Some (m_exports m, with_cache (alter (λ _, m) path (require_cache st)) st)
      end
  end.

(** The loader makes the record of the entry point, caches it and
    names it [process.mainModule]. *)
Definition start (main : string) (st : State) : NodeModule * State :=
  let m := new_Module main st in
  (m, with_loader (Some m) (S (created st))
        (with_cache (<[main := m]> (require_cache st)) st)).

(** [node -r node-hot-reload main]: the hooks are in place before the
    entry point is loaded. *)
Definition run_preloaded (fuel : nat) (main : string) (st : State) : option State :=
  let '(m, st) := start main st in
  '(m, st) ← Module_prototype_load
               (λ this file,
                  load (Module_prototype_require resolveFilename (require fuel))
                       (program file) this)
               m main st;
  Some (with_cache (alter (λ _, m) main (require_cache st)) st).

(** [node main], the entry point requiring node-hot-reload first: its own
    [load] started unhooked, its [require] calls are hooked. *)
Definition run (fuel : nat) (main : string) (st : State) : option State :=
  let '(m, st) := start main st in
  '(m, st) ← load (Module_prototype_require resolveFilename (require fuel))
                  (program main) m st;
  Some (with_cache (alter (λ _, m) main (require_cache st)) st).

(** A change of [file] on disk: the watcher reports the paths it
    watches, and the handler runs. *)
Definition change (fuel : nat) (file : string) (st : State)
    : option (list (NodeModule * string) * State) :=
  if decide (file ∈ _watcher st) then on_change (require fuel) file st
  else Some ([], st).

End Run.

End Node.

Arguments Graph.removeDependencies : simpl never.
Arguments Graph.getDependantsOf : simpl never.
Arguments Graph.addDependency : simpl never.
Arguments run_store : simpl never.
Arguments unload : simpl never.
Arguments reload : simpl never.
Arguments patch_value : simpl never.

(** ** Reading the trace, and the vocabulary of the statements *)

Definition stores (t : list Event) : list string :=
  omap (λ ev, match ev with EvStore entry => Some entry | _ => None end) t.

Definition evictions (t : list Event) : list string :=
  omap (λ ev, match ev with EvEvict file => Some file | _ => None end) t.

Definition removals (t : list Event) : list string :=
  omap (λ ev, match ev with EvRemoveDependencies file => Some file | _ => None end) t.

Definition unwatched (t : list Event) : list string :=
  omap (λ ev, match ev with EvUnwatch file => Some file | _ => None end) t.



(** Every entry sits under its own file name: what [registerFile] builds. *)
Definition registry_wf (st : State) : Prop :=
  map_Forall (λ k e, filename e = k) (_registry st).

#[global] Instance registry_wf_dec (st : State) : Decision (registry_wf st).
Proof. unfold registry_wf. apply _. Defined.

(** Two registries that differ in stashes at most. *)
Definition same_entries (r r' : gmap string RegistryEntry) : Prop :=
  ∀ k, set_stash None <$> r !! k = set_stash None <$> r' !! k.

(** The file name of the entry registered under [k]. *)
Definition entry_filename (r : gmap string RegistryEntry) (k : string) : string :=
  from_option filename k (r !! k).

(** The dependants [reload] finds for an entry: those left in the graph
    once the entry's own outgoing edges are gone (line 144). *)
Definition dependants_of (entry : string) (e : RegistryEntry) (st : State) : list string :=
  Graph.getDependantsOf (_graph (unload entry e st)) (filename e).

(** What one call of [reload] does to the visit it is handed: entries
    change in their stash only, the visited set grows by the entries whose
    [store] ran, each of them once, evicted once and cut loose once, and
    every new acceptee is the file of a newly visited entry. *)
Definition advances (v v' : Visit) : Prop :=
  let '(acc, rel, st) := v in
  let '(acc', rel', st') := v' in
  same_entries (_registry st) (_registry st') ∧
  rel ⊆ rel' ∧
  (∃ new, trace st' = trace st ++ new ∧
          NoDup (stores new) ∧
          (∀ k, k ∈ stores new ↔ k ∈ rel' ∧ (k ∉ rel)) ∧
          (∀ k, k ∈ stores new → is_Some (_registry st !! k)) ∧
          evictions new = entry_filename (_registry st) <$> stores new ∧
          removals new = entry_filename (_registry st) <$> stores new) ∧
  (∀ x, x ∈ acc → x ∈ acc') ∧
  (∀ x, x ∈ acc' →
        x ∈ acc ∨ (∃ k, k ∈ rel' ∧ (k ∉ rel) ∧ entry_filename (_registry st) k = x)) ∧
  (∀ e, e ∈ _graph st' → e ∈ _graph st) ∧
  _cfg st' = _cfg st ∧ mainModule st' = mainModule st ∧
  heap st' = heap st ∧ created st' = created st.

(** The graph holds no edge whose dependent is the entry point's file. *)
Definition main_edge_free (st : State) : Prop :=
  ∀ main, mainModule st = Some main →
          ∀ dependency, (m_filename main, dependency) ∉ _graph st.

(** ** The patcher, in the words of the specification

    Section 4.4 read as a procedure of its own, to be compared with
    [hot_patch]: for each new constructor [C], look up or create the history
    of its name; for every recorded [Old], oldest first, do steps a to d;
    append [C]. *)

Module PatcherSpec.







End PatcherSpec.

(** The history recorded under [name] in an entry. *)
Definition history_of (e : RegistryEntry) (name : string) : list addr :=
  default [] (patchees e !! name).

(** [c] is a constructor, and its [prototype] is an object. *)
Definition live (h : Heap) (c : addr) : Prop :=
  ∃ name p, constructor_of h c = Some (name, p) ∧ is_Some (h !! p).



(** ** The operations on a registry entry, by name *)

Inductive Operation :=
| OpAccept (entry : string)
| OpStore (entry : string) (stasher : StashCallback)
| OpRestore (entry : string) (stasher : StashCallback)
| OpPatch (entry : string) (constructors : list addr)
| OpRegisterFile (m : NodeModule) (file : string)
| OpInjectFile (m : NodeModule) (file : string)
| OpConfigure (opts : PartialOptions)
| OpReload (entry : string).

Definition perform (op : Operation) (st : State) : option State :=
  match op with
  | OpAccept entry => Some (hot_accept entry st)
  | OpStore entry stasher => Some (hot_store entry stasher st)
  | OpRestore entry stasher => Some (hot_restore entry stasher st)
  | OpPatch entry constructors => hot_patch entry constructors st
  | OpRegisterFile m file => Some (registerFile m file st).2
  | OpInjectFile m file => Some (injectFile m file st).2
  | OpConfigure opts => Some (configure opts st)
  | OpReload entry => v ← reload_entry entry st; Some v.2
  end.

(** The entry registered under [k] is accepted. *)
Definition accepted_at (k : string) (st : State) : Prop :=
  ∃ e, _registry st !! k = Some e ∧ accepted e = true.


(** ** What a change leaves behind, as relations on visits *)

(** What [entry.store()] leaves in the entry (lines 189-192): a fresh
    stash holding what the procedure wrote, whatever was stashed before. *)
Definition stashed (e : RegistryEntry) : RegistryEntry :=
  match store e with
  | Some stasher => set_stash (Some (stasher [])) e
  | None => e
  end.

(** What a run of [reload] that took the visited set from [rel] to [rel']
    has done to the four stores, and which acceptees it has added. *)
Definition cache_swept (rel rel' : gset string) (st st' : State) : Prop :=
  ∀ k, require_cache st' !! k
       = if decide (k ∈ rel' ∖ rel) then None else require_cache st !! k.

Definition edges_swept (rel rel' : gset string) (st st' : State) : Prop :=
  ∀ edge, edge ∈ _graph st' ↔ edge ∈ _graph st ∧ edge.1 ∉ rel' ∖ rel.

Definition entries_stashed (rel rel' : gset string) (st st' : State) : Prop :=
  ∀ k, _registry st' !! k
       = (λ e, if decide (k ∈ rel' ∖ rel) then stashed e else e) <$> _registry st !! k.

Definition orphans_unwatched (rel rel' : gset string) (st st' : State) : Prop :=
  _watcher st' ⊆ _watcher st ∧
  ∀ file, file ∈ _watcher st → file ∉ _watcher st' →
          Graph.getDependantsOf (_graph st') file = [] ∧
          ∃ k, k ∈ rel' ∖ rel ∧ (k, file) ∈ _graph st.

Definition acceptees_settled (acc acc' : list string) (rel rel' : gset string)
    (st st' : State) : Prop :=
  (NoDup acc → NoDup acc') ∧
  ∀ x, x ∈ acc' →
       x ∈ acc ∨
       (x ∈ rel' ∖ rel ∧
        ∃ e, _registry st !! x = Some e ∧
             (accepted e = true ∨ Graph.getDependantsOf (_graph st') x = [])).

Definition sweeps (v v' : Visit) : Prop :=
  let '(acc, rel, st) := v in
  let '(acc', rel', st') := v' in
  rel ⊆ rel' ∧ cache_swept rel rel' st st' ∧ edges_swept rel rel' st st' ∧
  entries_stashed rel rel' st st' ∧ orphans_unwatched rel rel' st st' ∧
  acceptees_settled acc acc' rel rel' st st'.

(** ** Options and names *)

(** [Object.assign({}, first, second)]: the options of [second] win. *)
Definition Object_assign (first second : PartialOptions) : PartialOptions :=
  {| opt_silent := from_option Some (opt_silent first) (opt_silent second);
     opt_patchExports := from_option Some (opt_patchExports first) (opt_patchExports second);
     opt_exclude := from_option Some (opt_exclude first) (opt_exclude second) |}.

Definition no_options : PartialOptions :=
  {| opt_silent := None; opt_patchExports := None; opt_exclude := None |}.

(** The names of the constructors [cs], where they are constructors. *)
Definition names_of (h : Heap) (cs : list addr) : list string :=
  omap (λ c, fst <$> constructor_of h c) cs.

(** ** Three small programs *)

Module Scenario.

(** An entry point [A] requiring [B], which requires [C]. *)
Definition chain_of (A B C : string) : Node.Program := λ file,
  if decide (file = A) then [Node.Require B]
  else if decide (file = B) then [Node.Require C]
  else [].

Definition chain : Node.Program := chain_of "/app/a.js" "/app/b.js" "/app/c.js".

(** An entry point and [b.js] requiring each other. *)
Definition cycle : Node.Program := λ file,
  if decide (file = "/app/a.js") then [Node.Require "/app/b.js"]
  else if decide (file = "/app/b.js") then [Node.Require "/app/a.js"]
  else [].

(** An entry point requiring [b.js]; [b.js] and [c.js] require each other. *)
Definition mutual : Node.Program := λ file,
  if decide (file = "/app/a.js") then [Node.Require "/app/b.js"]
  else if decide (file = "/app/b.js") then [Node.Require "/app/c.js"]
  else if decide (file = "/app/c.js") then [Node.Require "/app/b.js"]
  else [].

(** An entry point handing over to a runner under [node_modules], which
    requires the application's [c.js]. *)
Definition vendor : Node.Program := λ file,
  if decide (file = "/app/main.js") then [Node.Require "/node_modules/runner/index.js"]
  else if decide (file = "/node_modules/runner/index.js") then [Node.Require "/app/c.js"]
  else [].

(** The entry point of [chain] and of [vendor], about to run. *)
Definition chain_started : NodeModule * State :=
  Eval vm_compute in Node.start "/app/a.js" (initial None).

Definition vendor_started : NodeModule * State :=
  Eval vm_compute in Node.start "/app/main.js" (initial None).

(** The states once the entry point has run. *)
Definition chain_loaded : State :=
  Eval vm_compute in default (initial None) (Node.run chain 3 "/app/a.js" (initial None)).

Definition cycle_loaded : State :=
  Eval vm_compute in
    default (initial None) (Node.run_preloaded cycle 3 "/app/a.js" (initial None)).

Definition mutual_loaded : State :=
  Eval vm_compute in default (initial None) (Node.run mutual 3 "/app/a.js" (initial None)).


(** The entries of [b.js] and [c.js] in [chain_loaded], of [b.js] in
    [mutual_loaded] and of [c.js] in [vendor_loaded]. *)
Definition chain_b : RegistryEntry :=
  Eval vm_compute in
    default (new_RegistryEntry chain_started.1 "") (_registry chain_loaded !! "/app/b.js").

Definition chain_c : RegistryEntry :=
  Eval vm_compute in
    default (new_RegistryEntry chain_started.1 "") (_registry chain_loaded !! "/app/c.js").

Definition mutual_b : RegistryEntry :=
  Eval vm_compute in
    default (new_RegistryEntry chain_started.1 "") (_registry mutual_loaded !! "/app/b.js").


(** What [reload] returns when [c.js] changes, in [chain_loaded] and in
    [vendor_loaded]. *)
Definition chain_visit : Visit :=
  Eval vm_compute in
    default ([], ∅, initial None) (reload_entry "/app/c.js" chain_loaded).


(** What the handler does when [c.js] of [chain] changes, the same with
    the hooks preloaded, and when [a.js] of [cycle] changes. *)
Definition chain_changed : list (NodeModule * string) * State :=
  Eval vm_compute in
    default ([], initial None) (Node.change chain 3 "/app/c.js" chain_loaded).

Definition chain_preloaded : State :=
  Eval vm_compute in
    default (initial None) (Node.run_preloaded chain 3 "/app/a.js" (initial None)).

Definition chain_preloaded_changed : list (NodeModule * string) * State :=
  Eval vm_compute in
    default ([], initial None) (Node.change chain 3 "/app/c.js" chain_preloaded).

Definition cycle_changed : list (NodeModule * string) * State :=
  Eval vm_compute in
    default ([], initial None) (Node.change cycle 3 "/app/a.js" cycle_loaded).

(** The original [require] of the runner by the entry point of [vendor],
    and of [b.js] by the entry point of [chain]. *)
Definition vendor_required : Value * State :=
  Eval vm_compute in
    default (VUndefined, initial None)
      (Node.require vendor 3 vendor_started.1 "/node_modules/runner/index.js"
         vendor_started.2).

Definition chain_required : Value * State :=
  Eval vm_compute in
    default (VUndefined, initial None)
      (Node.require chain 3 chain_started.1 "/app/b.js" chain_started.2).

Definition chain_b_module : NodeModule :=
  Eval vm_compute in
    default chain_started.1 (require_cache chain_required.2 !! "/app/b.js").

(** A module [w.js] that defined the class [Widget] (constructor 1,
    prototype 2) and, loaded again, defines it anew (constructor 3,
    prototype 4); it exports the class and a number. *)
Definition widget_heap : Heap :=
  Eval vm_compute in
    <[1 := {| own := [("count", VNumber 7); ("create", VArrow 10)];
              proto := None; ctor := Some ("Widget", 2) |}]>
   (<[2 := {| own := [("render", VArrow 11)]; proto := Some 0; ctor := None |}]>
   (<[3 := {| own := [("count", VNumber 0); ("create", VArrow 20)];
              proto := None; ctor := Some ("Widget", 4) |}]>
   (<[4 := {| own := [("render", VArrow 21); ("resize", VArrow 22)];
              proto := Some 5; ctor := None |}]>
   (<[0 := {| own := []; proto := None; ctor := None |}]>
   (<[5 := {| own := [("toString", VArrow 23)]; proto := None; ctor := None |}]> ∅))))).

Definition widget_module : NodeModule :=
  {| m_id := 1; m_filename := "/app/w.js"; m_hot := Some "/app/w.js";
     m_exports := VObject [("Widget", VClass 3); ("version", VNumber 42)] |}.

Definition widget_entry : RegistryEntry :=
  Eval vm_compute in
    set_stash (Some [("open", VBoolean true)])
      (set_store (Some (λ stash, set_property stash "open" (VBoolean true)))
         (set_accepted true
            (set_patchees {["Widget" := [1]]}
               (new_RegistryEntry widget_module "/app/w.js")))).

Definition widget_state : State :=
  Eval vm_compute in
    with_heap widget_heap
      (with_registry {["/app/w.js" := widget_entry]} (initial None)).

Definition widget_patched : State :=
  Eval vm_compute in
    default (initial None) (hot_patch "/app/w.js" [3] widget_state).

Definition widget_entry_patched : RegistryEntry :=
  Eval vm_compute in
    default widget_entry (_registry widget_patched !! "/app/w.js").


(** A run of the operations on the entry of [w.js]. *)
Definition widget_operations : list Operation :=
  [OpRestore "/app/w.js" (λ stash, stash); OpStore "/app/w.js" (λ stash, stash);
   OpPatch "/app/w.js" [3]; OpRegisterFile widget_module "/app/w.js";
   OpInjectFile widget_module "/app/w.js";
   OpConfigure {| opt_silent := Some true; opt_patchExports := None; opt_exclude := None |};
   OpReload "/app/w.js"; OpAccept "/app/w.js"].

Definition widget_operated : State :=
  Eval vm_compute in default (initial None) (for_of widget_operations perform widget_state).

(** The module record of [c.js] in [chain_loaded], and the hooked
    [require] of [c.js] by [b.js] once the chain has run. *)
Definition chain_c_module : NodeModule :=
  Eval vm_compute in
    default chain_started.1 (require_cache chain_loaded !! "/app/c.js").

Definition chain_c_required : Value * State :=
  Eval vm_compute in
    default (VUndefined, initial None)
      (Module_prototype_require Node.resolveFilename (Node.require chain 3)
         chain_b_module "/app/c.js" chain_loaded).

(** [w.js] on its first load: registered, nothing patched yet. *)
Definition widget_first_entry : RegistryEntry :=
  Eval vm_compute in new_RegistryEntry widget_module "/app/w.js".

Definition widget_first : State :=
  Eval vm_compute in
    with_heap widget_heap
      (with_registry {["/app/w.js" := widget_first_entry]} (initial None)).

(** The module record made when [w.js] is loaded again. *)
Definition widget_again : NodeModule :=
  {| m_id := 2; m_filename := "/app/w.js"; m_hot := None; m_exports := VObject [] |}.

Definition remember_open : StashCallback :=
  λ stash, set_property stash "open" (VBoolean true).

Definition remember_closed : StashCallback :=
  λ stash, set_property stash "open" (VBoolean false).

(** A module that exports a number and nothing else, one that exports a
    class, neither with a control object; and a loader and a [require]
    that do nothing. *)
Definition plain_module : NodeModule :=
  {| m_id := 3; m_filename := "/app/v.js"; m_hot := None;
     m_exports := VObject [("version", VNumber 42)] |}.

Definition bare_class_module : NodeModule :=
  {| m_id := 4; m_filename := "/app/k.js"; m_hot := None; m_exports := VClass 3 |}.

Definition idle_load (this : NodeModule) (file : string) (st : State)
    : option (NodeModule * State) := Some (this, st).


End Scenario.

(** ** Tactics for running a program on names that are variables *)

Ltac norm :=
  cbv [with_loader with_cache with_registry with_graph with_watcher with_heap with_cfg log
       watcher_add watcher_unwatch initial
       _cfg _graph _registry _watcher require_cache mainModule created heap trace
       Node.new_Module Node.resolveFilename with_hot m_id m_filename m_hot m_exports
       new_RegistryEntry mod_ filename accepted stash patchees store
       is_not_main same_module negb andb orb
       mbind option_bind fmap option_fmap option_map fst snd].

Ltac lookups :=
  repeat first
    [ rewrite lookup_insert_eq
    | rewrite lookup_insert_ne by congruence
    | rewrite lookup_alter_eq
    | rewrite lookup_alter_ne by congruence
    | rewrite lookup_empty ].

Arguments Node.require : simpl never.

(** * Properties *)

(** ** Loops *)

Lemma for_of_nil {A S : Type} (body : A → S → option S) (s : S) :
  for_of [] body s = Some s.
Proof. reflexivity. Qed.

Lemma for_of_failed {A S : Type} (body : A → S → option S) (xs : list A) :
  foldl (λ acc x, acc ≫= body x) None xs = None.
Proof. induction xs as [|x xs IH]; [done | exact IH]. Qed.

Lemma for_of_cons {A S : Type} (body : A → S → option S) (x : A) (xs : list A) (s : S) :
  for_of (x :: xs) body s = body x s ≫= for_of xs body.
Proof.
  unfold for_of; simpl. destruct (body x s) as [s'|]; simpl; [done |].
  apply for_of_failed.
Qed.

Lemma for_of_app {A S : Type} (body : A → S → option S) (xs ys : list A) (s : S) :
  for_of (xs ++ ys) body s = for_of xs body s ≫= for_of ys body.
Proof.
  revert s. induction xs as [|x xs IH]; intros s; [done |].
  rewrite <- app_comm_cons, !for_of_cons.
  destruct (body x s) as [s'|]; simpl; [apply IH | done].
Qed.

(** The invariant rule: [I done s] holds of the state [s] reached once the
    elements [done] have been through the body. *)
Lemma for_of_invariant {A S : Type} (I : list A → S → Prop)
    (body : A → S → option S) (xs : list A) (s s' : S) :
  I [] s →
  (∀ done x s s', x ∈ xs → I done s → body x s = Some s' → I (done ++ [x]) s') →
  for_of xs body s = Some s' →
  I xs s'.
Proof.
  intros H0 Hstep.
  assert (∀ rest done s, I done s → done ++ rest = xs →
            for_of rest body s = Some s' → I xs s') as G.
  { induction rest as [|x rest IH]; intros done s1 HI Heq Hrun.
    - rewrite app_nil_r in Heq; subst done.
      rewrite for_of_nil in Hrun. by injection Hrun as ->.
    - rewrite for_of_cons in Hrun.
      destruct (body x s1) as [s2|] eqn:Hb; simpl in Hrun; [|done].
      apply (IH (done ++ [x]) s2); [| by rewrite <- app_assoc | done].
      apply (Hstep done x s1 s2); [| done | done].
      rewrite <- Heq. set_solver. }
  intros Hrun. by apply (G xs [] s).
Qed.

(** A loop whose body never throws runs to its end. *)
Lemma for_of_total {A S : Type} (I : S → Prop)
    (body : A → S → option S) (xs : list A) (s : S) :
  I s →
  (∀ x s, x ∈ xs → I s → ∃ s', body x s = Some s' ∧ I s') →
  ∃ s', for_of xs body s = Some s' ∧ I s'.
Proof.
  revert s. induction xs as [|x xs IH]; intros s HI Hstep.
  - exists s. by rewrite for_of_nil.
  - destruct (Hstep x s) as (s1 & Hb & HI1); [set_solver | done |].
    destruct (IH s1 HI1) as (s2 & Hrun & HI2).
    { intros y t Hy. apply Hstep. set_solver. }
    exists s2. rewrite for_of_cons, Hb. done.
Qed.

(** ** The dependency graph *)

Module GraphFacts.
Import Graph.

Lemma elem_of_addDependency g a b e :
  e ∈ addDependency g a b ↔ e ∈ g ∨ e = (a, b).
Proof.
  unfold addDependency. case_decide as Hin.
  - split; [by left | intros [?| ->]; done].
  - rewrite elem_of_app, list_elem_of_singleton. done.
Qed.

Lemma addDependency_idempotent g a b :
  addDependency (addDependency g a b) a b = addDependency g a b.
Proof.
  unfold addDependency at 1. rewrite decide_True; [done |].
  apply elem_of_addDependency. by right.
Qed.

Lemma elem_of_getDependantsOf g a b :
  a ∈ getDependantsOf g b ↔ (a, b) ∈ g.
Proof.
  unfold getDependantsOf. rewrite list_elem_of_fmap. split.
  - intros ([a' b'] & -> & Hin). apply list_elem_of_filter in Hin as [Heq Hin].
    simpl in *. by subst.
  - intros Hin. exists (a, b). split; [done |]. by apply list_elem_of_filter.
Qed.

Lemma elem_of_removeDependencies g a e :
  e ∈ (removeDependencies g a).1 ↔ e ∈ g ∧ e.1 ≠ a.
Proof. unfold removeDependencies; simpl. rewrite list_elem_of_filter. tauto. Qed.

(** What [removeDependencies] returns is no longer depended upon. *)
Lemma removed_orphaned g a d :
  d ∈ (removeDependencies g a).2 →
  (a, d) ∈ g ∧ getDependantsOf (removeDependencies g a).1 d = [].
Proof.
  unfold removeDependencies; simpl. rewrite list_elem_of_filter.
  intros [Hno Hin]. split; [|done].
  apply elem_of_remove_dups, list_elem_of_fmap in Hin as ([a' d'] & -> & Hin).
  apply list_elem_of_filter in Hin as [Heq Hin]. simpl in *. by subst.
Qed.

End GraphFacts.

(** ** Registries up to stashes *)

Lemma same_entries_refl r : same_entries r r.
Proof. done. Qed.

Lemma same_entries_trans r1 r2 r3 :
  same_entries r1 r2 → same_entries r2 r3 → same_entries r1 r3.
Proof. intros H1 H2 k. by rewrite H1. Qed.

Lemma same_entries_lookup r r' k e :
  same_entries r r' → r !! k = Some e →
  ∃ e', r' !! k = Some e' ∧ set_stash None e' = set_stash None e.
Proof.
  intros H Hk. specialize (H k). rewrite Hk in H.
  destruct (r' !! k) as [e'|]; simpl in H; [|done].
  exists e'. split; [done | congruence].
Qed.

Lemma same_entries_sym r r' : same_entries r r' → same_entries r' r.
Proof. intros H k. by rewrite H. Qed.

Lemma same_entries_is_Some r r' k :
  same_entries r r' → is_Some (r !! k) ↔ is_Some (r' !! k).
Proof.
  intros H. specialize (H k).
  destruct (r !! k), (r' !! k); simpl in H; done.
Qed.

Lemma same_entries_dom r r' : same_entries r r' → dom r = dom r'.
Proof.
  intros H. apply set_eq; intros k. rewrite !elem_of_dom.
  by apply same_entries_is_Some.
Qed.

Lemma same_entries_filename r r' k :
  same_entries r r' → entry_filename r k = entry_filename r' k.
Proof.
  intros H. unfold entry_filename. specialize (H k).
  destruct (r !! k) as [e|], (r' !! k) as [e'|]; simpl in *; try done.
  assert (set_stash None e = set_stash None e') as He by congruence.
  by apply (f_equal filename) in He.
Qed.

Lemma same_entries_insert r k e e' :
  r !! k = Some e → set_stash None e' = set_stash None e →
  same_entries r (<[k := e']> r).
Proof.
  intros Hk He j. destruct (decide (k = j)) as [<-|Hne].
  - rewrite lookup_insert_eq, Hk. simpl. by rewrite He.
  - by rewrite lookup_insert_ne.
Qed.

Lemma registry_wf_same st st' :
  same_entries (_registry st) (_registry st') → registry_wf st → registry_wf st'.
Proof.
  intros H Hwf k e' Hk.
  destruct (same_entries_lookup _ _ k e' (same_entries_sym _ _ H) Hk) as (e & He & Heq).
  rewrite <- (Hwf k e He). by apply (f_equal filename) in Heq.
Qed.

Lemma entry_filename_wf st k :
  registry_wf st → entry_filename (_registry st) k = k.
Proof.
  intros Hwf. unfold entry_filename.
  destruct (_registry st !! k) as [e|] eqn:Hk; simpl; [by apply Hwf | done].
Qed.

(** ** What [unload] touches *)

Lemma unwatch_all_fields (removed : list string) (st : State) :
  let st' := foldl watcher_unwatch st removed in
  _registry st' = _registry st ∧ _graph st' = _graph st ∧
  require_cache st' = require_cache st ∧ _cfg st' = _cfg st ∧
  mainModule st' = mainModule st ∧ heap st' = heap st ∧ created st' = created st ∧
  trace st' = trace st ++ (EvUnwatch <$> removed).
Proof.
  revert st. induction removed as [|d removed IH]; intros st; simpl.
  - by rewrite app_nil_r.
  - destruct (IH (watcher_unwatch st d)) as (-> & -> & -> & -> & -> & -> & -> & ->).
    simpl. by rewrite <- app_assoc.
Qed.

Lemma unload_fields (entry : string) (e : RegistryEntry) (st : State) :
  _registry st !! entry = Some e →
  let st' := unload entry e st in
  same_entries (_registry st) (_registry st') ∧
  _graph st' = (Graph.removeDependencies (_graph st) (filename e)).1 ∧
  trace st' = trace st ++ [EvStore entry; EvEvict (filename e);
                           EvRemoveDependencies (filename e)]
                       ++ (EvUnwatch <$> (Graph.removeDependencies (_graph st) (filename e)).2) ∧
  _cfg st' = _cfg st ∧ mainModule st' = mainModule st ∧
  heap st' = heap st ∧ created st' = created st.
Proof.
  intros Hk. unfold unload. cbv zeta.
  assert (same_entries (_registry st) (_registry (run_store entry e st)) ∧
          _graph (run_store entry e st) = _graph st ∧
          trace (run_store entry e st) = trace st ++ [EvStore entry] ∧
          _cfg (run_store entry e st) = _cfg st ∧
          mainModule (run_store entry e st) = mainModule st ∧
          heap (run_store entry e st) = heap st ∧
          created (run_store entry e st) = created st)
    as (He & Hg & Ht & Hc & Hm & Hh & Hn).
  { unfold run_store. destruct (store e) as [stasher|] eqn:Hs; simpl; (split; [|done]).
    - apply (same_entries_insert _ _ e); [exact Hk |].
      unfold set_stash; simpl. by rewrite Hs.
    - apply same_entries_refl. }
  generalize dependent (run_store entry e st). intros st1 He Hg Ht Hc Hm Hh Hn.
  match goal with |- context [foldl watcher_unwatch ?s ?l] =>
    destruct (unwatch_all_fields l s) as (-> & -> & _ & -> & -> & -> & -> & ->)
  end.
  simpl. rewrite Hg, Ht, Hc, Hm, Hh, Hn, <- !app_assoc. done.
Qed.

Lemma stores_unwatch (l : list string) : stores (EvUnwatch <$> l) = [].
Proof. by induction l. Qed.

Lemma evictions_unwatch (l : list string) : evictions (EvUnwatch <$> l) = [].
Proof. by induction l. Qed.

Lemma removals_unwatch (l : list string) : removals (EvUnwatch <$> l) = [].
Proof. by induction l. Qed.

(** ** One call of [reload] *)

Lemma advances_refl (v : Visit) : advances v v.
Proof.
  destruct v as [[acc rel] st].
  split; [done |]. split; [done |]. split.
  { exists []. rewrite app_nil_r. simpl.
    split; [done |]. split; [constructor |]. split.
    { intros k. split; [by intros ?%not_elem_of_nil | set_solver]. }
    split; [by intros k ?%not_elem_of_nil | done]. }
  split; [done |]. split; [by left | done].
Qed.

Lemma advances_trans (v1 v2 v3 : Visit) :
  advances v1 v2 → advances v2 v3 → advances v1 v3.
Proof.
  destruct v1 as [[acc1 rel1] st1], v2 as [[acc2 rel2] st2], v3 as [[acc3 rel3] st3].
  intros (He1 & Hr1 & (new1 & Ht1 & Hnd1 & Hin1 & Hreg1 & Hev1 & Hrm1) & Ha1 & Hb1 & Hg1
          & Hc1 & Hm1 & Hh1 & Hn1)
         (He2 & Hr2 & (new2 & Ht2 & Hnd2 & Hin2 & Hreg2 & Hev2 & Hrm2) & Ha2 & Hb2 & Hg2
          & Hc2 & Hm2 & Hh2 & Hn2).
  assert (∀ k, entry_filename (_registry st2) k = entry_filename (_registry st1) k) as Hfn
    by (intros k; symmetry; by apply same_entries_filename).
  split; [by eapply same_entries_trans |].
  split; [set_solver |].
  split.
  { exists (new1 ++ new2). unfold stores, evictions, removals in *.
    rewrite !omap_app, fmap_app, Ht2, Ht1, <- app_assoc.
    split; [done |]. split.
    { apply NoDup_app. split; [done |]. split; [|done].
      intros k Hk1 Hk2. apply Hin1 in Hk1 as [Hk1 _]. apply Hin2 in Hk2 as [_ Hk2].
      by apply Hk2. }
    split.
    { intros k. rewrite elem_of_app, Hin1, Hin2. split.
      - intros [[Hk Hn]|[Hk Hn]]; split; auto.
      - intros [Hk Hn]. destruct (decide (k ∈ rel2)); [left | right]; done. }
    split.
    { intros k. rewrite elem_of_app. intros [Hk|Hk]; [by apply Hreg1 |].
      apply (same_entries_is_Some _ _ k He1). by apply Hreg2. }
    split.
    - rewrite Hev1, Hev2. f_equal. apply list_fmap_ext. intros _ k _. apply Hfn.
    - rewrite Hrm1, Hrm2. f_equal. apply list_fmap_ext. intros _ k _. apply Hfn. }
  split; [auto |].
  split.
  { intros x Hx. destruct (Hb2 x Hx) as [Hx2|(k & Hk & Hnk & Hf)].
    - destruct (Hb1 x Hx2) as [?|(k & Hk & Hnk & Hf)]; [by left |].
      right. exists k. set_solver.
    - right. exists k. rewrite <- Hfn. set_solver. }
  split; [auto |].
  repeat split; congruence.
Qed.

Lemma advances_unload (entry : string) (e : RegistryEntry) acc (rel : gset string) st :
  _registry st !! entry = Some e → entry ∉ rel →
  advances (acc, rel, st) (acc, {[entry]} ∪ rel, unload entry e st).
Proof.
  intros Hk Hnew.
  destruct (unload_fields entry e st Hk) as (He & Hg & Ht & Hc & Hm & Hh & Hn).
  split; [done |]. split; [set_solver |]. split.
  { eexists. split; [exact Ht |]. unfold stores, evictions, removals.
    rewrite !omap_app. fold stores evictions removals.
    rewrite stores_unwatch, evictions_unwatch, removals_unwatch. simpl.
    unfold entry_filename. rewrite Hk. simpl.
    repeat split; try done.
    - apply NoDup_singleton.
    - apply list_elem_of_singleton in H. set_solver.
    - apply list_elem_of_singleton in H. by subst.
    - intros [Hin Hnot]. apply list_elem_of_singleton. set_solver.
    - intros k Hin. apply list_elem_of_singleton in Hin. by subst. }
  split; [done |]. split; [by left |]. split.
  { intros x. rewrite Hg. intros Hx. by apply GraphFacts.elem_of_removeDependencies in Hx as []. }
  done.
Qed.

Lemma reload_unfold fuel entry e acc rel st :
  _registry st !! entry = Some e →
  reload (S fuel) entry acc rel st =
    if accepted e || bool_decide (dependants_of entry e st = [])
    then Some (set_add (filename e) acc, {[entry]} ∪ rel, unload entry e st)
    else for_of (dependants_of entry e st) (visit_dependant (reload fuel))
           (acc, {[entry]} ∪ rel, unload entry e st).
Proof. intros Hk. unfold reload; fold reload. rewrite Hk. reflexivity. Qed.

Lemma reload_unregistered fuel entry acc rel st :
  _registry st !! entry = None → reload fuel entry acc rel st = None.
Proof.
  intros Hk. destruct fuel as [|fuel]; [done |].
  unfold reload; fold reload. by rewrite Hk.
Qed.

Lemma elem_of_set_add x y s : x ∈ set_add y s ↔ x ∈ s ∨ x = y.
Proof.
  unfold set_add. case_decide.
  - split; [by left | intros [?| ->]; done].
  - by rewrite elem_of_app, list_elem_of_singleton.
Qed.

(** The loop over the dependants, given what each recursive call does. *)
Lemma visit_dependants_advances
    (rec : string → list string → gset string → State → option Visit)
    (dependants : list string) (v v' : Visit) :
  (∀ d acc rel st w, rec d acc rel st = Some w → d ∉ rel →
                     advances (acc, rel, st) w ∧ d ∈ w.1.2) →
  for_of dependants (visit_dependant rec) v = Some v' →
  advances v v' ∧
  ∀ d, d ∈ dependants → is_Some (_registry v.2 !! d) → d ∈ v'.1.2.
Proof.
  intros Hrec Hrun.
  apply (for_of_invariant
           (λ done w, advances v w ∧
                      ∀ d, d ∈ done → is_Some (_registry v.2 !! d) → d ∈ w.1.2)
           _ _ _ _) in Hrun; [done | |].
  - split; [apply advances_refl |]. by intros d ?%not_elem_of_nil.
  - clear v' Hrun. intros done d [[acc rel] st] w' _ [Hadv Hdone] Hbody.
    assert (advances (acc, rel, st) w' ∧
            (is_Some (_registry st !! d) → d ∈ w'.1.2)) as [Hstep Hd].
    { simpl in Hbody. destruct (_registry st !! d) as [e|] eqn:Hk.
      - destruct (decide (d ∈ rel)) as [Hin|Hout].
        + injection Hbody as <-. split; [apply advances_refl | done].
        + destruct (Hrec _ _ _ _ _ Hbody Hout). done.
      - injection Hbody as <-. split; [apply advances_refl |]. by intros [? ?]. }
    split; [by eapply advances_trans |].
    intros d' Hd' Hreg. destruct w' as [[acc' rel'] st']. simpl.
    destruct v as [[acc0 rel0] st0].
    destruct Hstep as (_ & Hsub & _).
    apply elem_of_app in Hd' as [Hd'|Hd'].
    + apply Hsub. by apply Hdone.
    + apply list_elem_of_singleton in Hd' as ->. apply Hd.
      destruct Hadv as (He & _). by apply (same_entries_is_Some _ _ d He).
Qed.

Lemma reload_advances (fuel : nat) entry acc rel st v' :
  reload fuel entry acc rel st = Some v' → entry ∉ rel →
  advances (acc, rel, st) v' ∧ entry ∈ v'.1.2.
Proof.
  revert entry acc rel st v'.
  induction fuel as [|fuel IH]; intros entry acc rel st v' Hrun Hnew; [done |].
  destruct (_registry st !! entry) as [e|] eqn:Hk; [| by rewrite reload_unregistered in Hrun].
  rewrite (reload_unfold _ _ e) in Hrun by done.
  pose proof (advances_unload entry e acc rel st Hk Hnew) as Hun.
  destruct (accepted e || bool_decide (dependants_of entry e st = [])).
  - injection Hrun as <-. split; [| set_solver].
    destruct Hun as (He & Hr & Ht & Ha & Hb & Hrest).
    split; [done |]. split; [done |]. split; [done |].
    split; [intros x Hx; apply elem_of_set_add; by left |].
    split; [| done].
    intros x [Hx| ->]%elem_of_set_add; [by left |].
    right. exists entry. unfold entry_filename. rewrite Hk. set_solver.
  - apply (visit_dependants_advances _ _ _ _ IH) in Hrun as [Hloop _].
    split; [by eapply advances_trans |].
    destruct v' as [[acc' rel'] st']. destruct Hloop as (_ & Hsub & _).
    simpl. set_solver.
Qed.

(** ** Termination *)

Lemma visit_dependants_mono
    (rec rec' : string → list string → gset string → State → option Visit)
    (dependants : list string) (v v' : Visit) :
  (∀ d acc rel st w, rec d acc rel st = Some w → rec' d acc rel st = Some w) →
  for_of dependants (visit_dependant rec) v = Some v' →
  for_of dependants (visit_dependant rec') v = Some v'.
Proof.
  intros Hrec. revert v. induction dependants as [|d ds IH]; intros v Hrun; [done |].
  rewrite for_of_cons in *.
  destruct (visit_dependant rec d v) as [w|] eqn:Hb; simpl in Hrun; [|done].
  assert (visit_dependant rec' d v = Some w) as ->; [| by apply IH].
  destruct v as [[acc rel] st]. simpl in *.
  destruct (_registry st !! d); [| done].
  destruct (decide (d ∈ rel)); [done | by apply Hrec].
Qed.

(** More fuel never changes an answer. *)
Lemma reload_fuel_mono (fuel fuel' : nat) entry acc rel st v :
  fuel ≤ fuel' → reload fuel entry acc rel st = Some v →
  reload fuel' entry acc rel st = Some v.
Proof.
  revert fuel' entry acc rel st v.
  induction fuel as [|fuel IH]; intros fuel' entry acc rel st v Hle Hrun; [done |].
  destruct fuel' as [|fuel']; [lia |].
  destruct (_registry st !! entry) as [e|] eqn:Hk; [| by rewrite reload_unregistered in Hrun].
  rewrite (reload_unfold fuel _ e) in Hrun by done.
  rewrite (reload_unfold fuel' _ e) by done.
  destruct (accepted e || bool_decide (dependants_of entry e st = [])); [done |].
  revert Hrun. apply visit_dependants_mono.
  intros d acc1 rel1 st1 w. apply IH. lia.
Qed.

(** One unit of fuel per entry not yet visited is enough. *)
Lemma reload_enough_fuel (fuel : nat) entry acc rel st :
  is_Some (_registry st !! entry) → entry ∉ rel →
  size (dom (_registry st) ∖ rel) ≤ fuel →
  is_Some (reload fuel entry acc rel st).
Proof.
  revert entry acc rel st.
  induction fuel as [|fuel IH]; intros entry acc rel st [e Hk] Hnew Hsize.
  { assert (entry ∈ dom (_registry st) ∖ rel) as Hin
      by (apply elem_of_difference; split; [by apply elem_of_dom | done]).
    assert (dom (_registry st) ∖ rel ≡ ∅) as Hempty by (apply size_empty_iff; lia).
    rewrite Hempty in Hin. set_solver. }
  rewrite (reload_unfold _ _ e) by done.
  destruct (accepted e || bool_decide (dependants_of entry e st = [])); [done |].
  pose proof (advances_unload entry e acc rel st Hk Hnew) as Hun.
  destruct (for_of_total
              (λ w, advances (acc, {[entry]} ∪ rel, unload entry e st) w)
              (visit_dependant (reload fuel)) (dependants_of entry e st)
              (acc, {[entry]} ∪ rel, unload entry e st)) as (w & -> & _);
    [apply advances_refl | | done].
  intros d [[acc2 rel2] st2] _ Hadv. simpl.
  destruct (_registry st2 !! d) as [e2|] eqn:Hd; [| by eauto].
  destruct (decide (d ∈ rel2)) as [|Hout]; [by eauto |].
  assert (size (dom (_registry st2) ∖ rel2) ≤ fuel) as Hbound.
  { pose proof (advances_trans _ _ _ Hun Hadv) as (He & _).
    destruct Hadv as (_ & Hsub & _).
    rewrite <- (same_entries_dom _ _ He).
    assert (dom (_registry st) ∖ rel2 ⊂ dom (_registry st) ∖ rel) as Hlt.
    { split; [set_solver |]. intros Hsup.
      assert (entry ∈ dom (_registry st) ∖ rel) as Hin
        by (apply elem_of_difference; split; [by apply elem_of_dom | done]).
      apply Hsup in Hin. set_solver. }
    apply subset_size in Hlt. lia. }
  destruct (IH d acc2 rel2 st2 (ltac:(eauto)) Hout Hbound) as [w Hw].
  exists w. split; [done |].
  change (advances (acc, {[entry]} ∪ rel, unload entry e st) w).
  apply (advances_trans _ (acc2, rel2, st2)); [exact Hadv |].
  by apply (reload_advances fuel d).
Qed.

Lemma reload_entry_terminates entry st :
  is_Some (_registry st !! entry) →
  ∃ v, ∀ fuel, size (_registry st) < fuel → reload fuel entry [] ∅ st = Some v.
Proof.
  intros Hk.
  destruct (reload_enough_fuel (size (_registry st)) entry [] ∅ st) as [v Hv];
    [done | set_solver | |].
  { rewrite difference_empty_L, size_dom. done. }
  exists v. intros fuel Hfuel. apply (reload_fuel_mono (size (_registry st))); [lia | done].
Qed.

(** ** The claims about [reload] *)

(** C3.  Whatever the dependency graph, cycles included, [reload] returns:
    every amount of fuel above the number of registry entries gives the
    same visit.  In the calls it makes, no entry has its [store] invoked
    twice, no file is evicted from the cache twice and none has its edges
    removed twice; the three happen to the same entries, those in the
    visited set. *)
Theorem reload_terminates_each_entry_once (st : State) (entry : string) :
  registry_wf st →
  is_Some (_registry st !! entry) →
  ∃ acceptees reloaded st' new,
    (∀ fuel, size (_registry st) < fuel →
             reload fuel entry [] ∅ st = Some (acceptees, reloaded, st')) ∧
    trace st' = trace st ++ new ∧
    NoDup (stores new) ∧ NoDup (evictions new) ∧ NoDup (removals new) ∧
    evictions new = stores new ∧ removals new = stores new ∧
    (∀ k, k ∈ stores new ↔ k ∈ reloaded).
Proof.
  intros Hwf Hk.
  destruct (reload_entry_terminates entry st Hk) as ([[acceptees reloaded] st'] & Hrun).
  destruct (reload_advances (S (size (_registry st))) entry [] ∅ st _
              (Hrun _ (Nat.lt_succ_diag_r _))) as [Hadv _]; [set_solver |].
  destruct Hadv as (_ & _ & (new & Ht & Hnd & Hin & _ & Hev & Hrm) & _).
  assert (entry_filename (_registry st) <$> stores new = stores new) as Hid.
  { rewrite <- (list_fmap_id (stores new)) at 2.
    apply list_fmap_ext. intros _ k _. by apply entry_filename_wf. }
  rewrite Hid in Hev, Hrm.
  exists acceptees, reloaded, st', new.
  rewrite Hev, Hrm. repeat (split; [done |]).
  intros k. rewrite Hin. set_solver.
Qed.



(** [b.js] and [c.js] require each other; [b.js] changes. *)
Lemma reload_terminates_on_cycle :
  _graph Scenario.mutual_loaded = [("/app/c.js", "/app/b.js"); ("/app/b.js", "/app/c.js")] ∧
  ∃ acceptees reloaded st' new,
    (∀ fuel, size (_registry Scenario.mutual_loaded) < fuel →
             reload fuel "/app/b.js" [] ∅ Scenario.mutual_loaded
             = Some (acceptees, reloaded, st')) ∧
    trace st' = trace Scenario.mutual_loaded ++ new ∧
    NoDup (stores new) ∧ NoDup (evictions new) ∧ NoDup (removals new) ∧
    evictions new = stores new ∧ removals new = stores new ∧
    (∀ k, k ∈ stores new ↔ k ∈ reloaded).
Proof.
  split; [vm_compute; reflexivity |].
  apply (reload_terminates_each_entry_once Scenario.mutual_loaded "/app/b.js").
  - compute_done.
  - exists Scenario.mutual_b. vm_compute; reflexivity.
Defined.



(** ** The require hook *)

Section RequireHook.

Variable resolve : string → NodeModule → string.
Variable orig : NodeModule → string → State → option (Value * State).

(** What the hook does once the original [require] has returned. *)
Lemma require_hook_cases caller file st xports st1 :
  orig caller file st = Some (xports, st1) →
  Module_prototype_require resolve orig caller file st =
    if negb (isEligible (_cfg st1) (resolve file caller)) then Some (xports, st1)
    else match require_cache st1 !! resolve file caller with
         | None => Some (xports, st1)
         | Some dependency =>
             Some (xports,
                   watcher_add (m_filename dependency)
                     (if is_not_main caller st1
                      then with_graph
                             (Graph.addDependency (_graph st1) (m_filename caller)
                                (m_filename dependency)) st1
                      else st1))
         end.
Proof. intros Horig. unfold Module_prototype_require. rewrite Horig. reflexivity. Qed.

(** C9.  When the resolved path is not eligible, or is eligible but has no
    module in the cache, the hook returns what the original [require]
    returned and leaves the state as that call left it: no edge is
    recorded, no path is watched, and nothing is thrown. *)
Theorem require_short_circuits caller file st xports st1 :
  orig caller file st = Some (xports, st1) →
  isEligible (_cfg st1) (resolve file caller) = false ∨
    (isEligible (_cfg st1) (resolve file caller) = true ∧
     require_cache st1 !! resolve file caller = None) →
  Module_prototype_require resolve orig caller file st = Some (xports, st1).
Proof.
  intros Horig Hcase. rewrite (require_hook_cases _ _ _ _ _ Horig).
  destruct Hcase as [-> | [-> ->]]; reflexivity.
Qed.

(** C10, as the code has it.  A [require] made by [process.mainModule]
    of an eligible, cached dependency watches the dependency's file and
    leaves the graph alone.  The guard compares module records while the
    graph holds file names: the hook keeps the graph free of edges from
    the entry point's file provided the caller, if it bears that file
    name, is [process.mainModule] itself; and [reload], which only removes
    edges, keeps it so. *)
Theorem main_require_watches_without_edge caller file st xports st1 dependency :
  orig caller file st = Some (xports, st1) →
  isEligible (_cfg st1) (resolve file caller) = true →
  require_cache st1 !! resolve file caller = Some dependency →
  (is_not_main caller st1 = false →
     ∃ st2, Module_prototype_require resolve orig caller file st = Some (xports, st2) ∧
            st2 = watcher_add (m_filename dependency) st1 ∧
            _graph st2 = _graph st1 ∧
            _watcher st2 = {[m_filename dependency]} ∪ _watcher st1) ∧
  (main_edge_free st1 →
   (∀ main, mainModule st1 = Some main → m_filename caller = m_filename main →
            same_module caller main = true) →
     ∃ st2, Module_prototype_require resolve orig caller file st = Some (xports, st2) ∧
            main_edge_free st2) ∧
  (∀ fuel entry acceptees reloaded v,
     main_edge_free st1 → entry ∉ reloaded →
     reload fuel entry acceptees reloaded st1 = Some v → main_edge_free v.2).
Proof.
  intros Horig Hel Hcache.
  rewrite (require_hook_cases _ _ _ _ _ Horig), Hel, Hcache. simpl.
  split; [| split].
  - intros ->. eexists. split; [reflexivity |]. done.
  - intros Hfree Hsame. eexists. split; [reflexivity |].
    intros main Hmain d Hin.
    destruct (is_not_main caller st1) eqn:Hnot; simpl in *;
      [| by apply (Hfree main Hmain d)].
    apply GraphFacts.elem_of_addDependency in Hin as [Hin|Heq];
      [by apply (Hfree main Hmain d) |].
    injection Heq as Hfile _.
    unfold is_not_main in Hnot. rewrite Hmain in Hnot.
    rewrite (Hsame main Hmain) in Hnot; [done | by symmetry].
  - intros fuel entry acceptees reloaded [[acc' rel'] st'] Hfree Hnew Hrun.
    apply reload_advances in Hrun as [(_ & _ & _ & _ & _ & Hg & _ & Hm & _) _]; [| done].
    intros main Hmain d Hin. simpl in *. rewrite Hm in Hmain.
    by apply (Hfree main Hmain d), Hg.
Qed.

(** ** The watcher handler *)

(** C4, as the code has it.  Every acceptee is re-required with, as the
    caller, the module held by the registry entry of the file that
    changed; that is the acceptee's own entry only when the acceptee is
    the changed file itself. *)
Theorem acceptees_required_from_changed_entry file st entry calls st' :
  _registry st !! file = Some entry →
  on_change orig file st = Some (calls, st') →
  ∃ acceptees reloaded st1,
    reload_entry file st = Some (acceptees, reloaded, st1) ∧
    calls = (λ acceptee, (mod_ entry, acceptee)) <$> acceptees.
Proof.
  intros Hk Hrun. unfold on_change in Hrun. rewrite Hk in Hrun.
  destruct (reload_entry file st) as [[[acceptees reloaded] st1]|]; [| done].
  exists acceptees, reloaded, st1. split; [done |]. simpl in Hrun.
  apply (for_of_invariant
           (λ done w, w.1 = (λ acceptee, (mod_ entry, acceptee)) <$> done)
           _ _ _ _) in Hrun; [done | done |].
  intros done acceptee [calls1 s1] [calls2 s2] _ Hdone Hbody. simpl in *.
  destruct (orig (mod_ entry) acceptee s1) as [[x s]|]; [| done].
  injection Hbody as <- <-. by rewrite fmap_app, Hdone.
Qed.

End RequireHook.

(** The entry point of [vendor] requires the runner under [node_modules]. *)
Lemma require_short_circuits_on_vendor :
  isEligible (_cfg Scenario.vendor_required.2) "/node_modules/runner/index.js" = false ∧
  Module_prototype_require Node.resolveFilename (Node.require Scenario.vendor 3)
    Scenario.vendor_started.1 "/node_modules/runner/index.js" Scenario.vendor_started.2
  = Some Scenario.vendor_required.
Proof.
  split; [vm_compute; reflexivity |].
  apply (require_short_circuits Node.resolveFilename (Node.require Scenario.vendor 3)
           Scenario.vendor_started.1 "/node_modules/runner/index.js"
           Scenario.vendor_started.2 Scenario.vendor_required.1 Scenario.vendor_required.2).
  - vm_compute; reflexivity.
  - left. vm_compute; reflexivity.
Defined.

(** The entry point of [chain] requires [b.js]. *)
Lemma main_require_on_chain :
  is_not_main Scenario.chain_started.1 Scenario.chain_required.2 = false ∧
  ∃ st2,
    Module_prototype_require Node.resolveFilename (Node.require Scenario.chain 3)
      Scenario.chain_started.1 "/app/b.js" Scenario.chain_started.2
    = Some (Scenario.chain_required.1, st2) ∧
    st2 = watcher_add "/app/b.js" Scenario.chain_required.2 ∧
    _graph st2 = _graph Scenario.chain_required.2 ∧
    _watcher st2 = {["/app/b.js"]} ∪ _watcher Scenario.chain_required.2.
Proof.
  split; [vm_compute; reflexivity |].
  destruct (main_require_watches_without_edge Node.resolveFilename
              (Node.require Scenario.chain 3) Scenario.chain_started.1 "/app/b.js"
              Scenario.chain_started.2 Scenario.chain_required.1 Scenario.chain_required.2
              Scenario.chain_b_module)
    as [Hmain _].
  - vm_compute; reflexivity.
  - vm_compute; reflexivity.
  - vm_compute; reflexivity.
  - apply Hmain. vm_compute; reflexivity.
Defined.

(** C10 as worded does not hold.  With the hooks preloaded, the entry point
    [a.js] and [b.js] require each other.  When [a.js] changes, [b.js] is
    the acceptee; loading it again requires [a.js], which was evicted, so
    the loader makes a second record for that file.  That record is not
    [process.mainModule], and its [require] of [b.js] is recorded: the graph
    now holds an edge whose dependent is the entry point's file. *)
Lemma reloaded_entry_point_records_edge :
  Node.run_preloaded Scenario.cycle 3 "/app/a.js" (initial None) = Some Scenario.cycle_loaded ∧
  _graph Scenario.cycle_loaded = [("/app/b.js", "/app/a.js")] ∧
  Node.change Scenario.cycle 3 "/app/a.js" Scenario.cycle_loaded = Some Scenario.cycle_changed ∧
  mainModule Scenario.cycle_changed.2 = Some Scenario.chain_started.1 ∧
  m_filename Scenario.chain_started.1 = "/app/a.js" ∧
  _graph Scenario.cycle_changed.2 = [("/app/a.js", "/app/b.js"); ("/app/b.js", "/app/a.js")] ∧
  ¬ main_edge_free Scenario.cycle_changed.2.
Proof.
  split; [vm_compute; reflexivity |].
  split; [vm_compute; reflexivity |].
  split; [vm_compute; reflexivity |].
  split; [vm_compute; reflexivity |].
  split; [reflexivity |].
  split; [vm_compute; reflexivity |].
  intros Hfree. apply (Hfree Scenario.chain_started.1 eq_refl "/app/b.js"). compute_done.
Qed.

(** [c.js] of the chain changes. *)
Lemma acceptees_required_on_chain :
  ∃ acceptees reloaded st1,
    reload_entry "/app/c.js" Scenario.chain_loaded = Some (acceptees, reloaded, st1) ∧
    Scenario.chain_changed.1 = (λ acceptee, (mod_ Scenario.chain_c, acceptee)) <$> acceptees.
Proof.
  apply (acceptees_required_from_changed_entry (Node.require Scenario.chain 3)
           "/app/c.js" Scenario.chain_loaded Scenario.chain_c
           Scenario.chain_changed.1 Scenario.chain_changed.2).
  - vm_compute; reflexivity.
  - vm_compute; reflexivity.
Defined.

(** C4 as worded does not hold.  When [c.js] of the chain changes, the
    acceptee is [b.js]; it is required with the module of the entry of
    [c.js] as caller, which is not the module held by the entry of [b.js]. *)
Lemma acceptee_required_from_another_module :
  _registry Scenario.chain_loaded !! "/app/c.js" = Some Scenario.chain_c ∧
  _registry Scenario.chain_loaded !! "/app/b.js" = Some Scenario.chain_b ∧
  Node.change Scenario.chain 3 "/app/c.js" Scenario.chain_loaded = Some Scenario.chain_changed ∧
  Scenario.chain_changed.1 = [(mod_ Scenario.chain_c, "/app/b.js")] ∧
  same_module (mod_ Scenario.chain_c) (mod_ Scenario.chain_b) = false ∧
  Scenario.chain_changed.1 ≠ [(mod_ Scenario.chain_b, "/app/b.js")].
Proof.
  split; [vm_compute; reflexivity |].
  split; [vm_compute; reflexivity |].
  split; [vm_compute; reflexivity |].
  split; [reflexivity |].
  split; [reflexivity |].
  vm_compute. discriminate.
Qed.

(** C2 as worded does not hold.  The entry point [a.js] requires [b.js],
    which requires [c.js]; nothing is accepted.  The hook records the edge
    from [b.js] to [c.js] only, so when [c.js] changes the propagation stops
    at [b.js]: the acceptee set is [b.js] alone, not [a.js].  It is the same
    with the hooks preloaded, when [a.js] has a registry entry of its own. *)
Lemma chain_change_does_not_reach_entry_point :
  Node.run Scenario.chain 3 "/app/a.js" (initial None) = Some Scenario.chain_loaded ∧
  mainModule Scenario.chain_loaded = Some Scenario.chain_started.1 ∧
  m_filename Scenario.chain_started.1 = "/app/a.js" ∧
  accepted Scenario.chain_b = false ∧ accepted Scenario.chain_c = false ∧
  _graph Scenario.chain_loaded = [("/app/b.js", "/app/c.js")] ∧
  reload_entry "/app/c.js" Scenario.chain_loaded = Some Scenario.chain_visit ∧
  Scenario.chain_visit.1.1 = ["/app/b.js"] ∧
  Scenario.chain_visit.1.1 ≠ ["/app/a.js"] ∧
  Node.change Scenario.chain 3 "/app/c.js" Scenario.chain_loaded = Some Scenario.chain_changed ∧
  Scenario.chain_changed.1.*2 = ["/app/b.js"] ∧
  Node.run_preloaded Scenario.chain 3 "/app/a.js" (initial None)
  = Some Scenario.chain_preloaded ∧
  is_Some (_registry Scenario.chain_preloaded !! "/app/a.js") ∧
  Node.change Scenario.chain 3 "/app/c.js" Scenario.chain_preloaded
  = Some Scenario.chain_preloaded_changed ∧
  Scenario.chain_preloaded_changed.1.*2 = ["/app/b.js"].
Proof.
  split; [vm_compute; reflexivity |].
  split; [vm_compute; reflexivity |].
  split; [reflexivity |].
  split; [reflexivity |]. split; [reflexivity |].
  split; [vm_compute; reflexivity |].
  split; [vm_compute; reflexivity |].
  split; [reflexivity |].
  split; [vm_compute; discriminate |].
  split; [vm_compute; reflexivity |].
  split; [reflexivity |].
  split; [vm_compute; reflexivity |].
  split; [vm_compute; eauto |].
  split; [vm_compute; reflexivity | reflexivity].
Qed.

(** ** Running a program symbolically *)

Lemma for_of_one {A S : Type} (body : A → S → option S) (x : A) (s : S) :
  for_of [x] body s = body x s.
Proof. rewrite for_of_cons. by destruct (body x s). Qed.

Lemma require_miss (P : Node.Program) fuel parent request st :
  require_cache st !! request = None →
  Node.require P (S fuel) parent request st =
    Module_prototype_load
      (λ this file,
         Node.load (Module_prototype_require Node.resolveFilename (Node.require P fuel))
           (P file) this)
      (Node.new_Module request st) request
      (with_loader (mainModule st) (S (created st))
         (with_cache (<[request := Node.new_Module request st]> (require_cache st)) st))
    ≫= λ '(m, st), Some (m_exports m,
                          with_cache (alter (λ _, m) request (require_cache st)) st).
Proof.
  intros H. unfold Node.require; fold Node.require.
  unfold Node.resolveFilename. by rewrite H.
Qed.

Lemma reload_entry_fuel fuel entry st v :
  reload fuel entry [] ∅ st = Some v → reload_entry entry st = Some v.
Proof.
  intros Hrun. unfold reload_entry.
  destruct (reload_entry_terminates entry st) as [v' Hv'].
  { destruct (_registry st !! entry) eqn:Hk; [by eauto |].
    by rewrite reload_unregistered in Hrun. }
  pose proof (Hv' (S (size (_registry st))) (Nat.lt_succ_diag_r _)) as H1.
  pose proof (reload_fuel_mono _ (fuel `max` S (size (_registry st))) _ _ _ _ _
                (Nat.le_max_l _ _) Hrun) as H2.
  pose proof (reload_fuel_mono _ (fuel `max` S (size (_registry st))) _ _ _ _ _
                (Nat.le_max_r _ _) H1) as H3.
  congruence.
Qed.

(** A graph made of the single edge from [B] to [C]: a change of [C]
    stops at [B]. *)
Lemma reload_chain_middle (st : State) (B C : string) (eB eC : RegistryEntry) :
  B ≠ C →
  _registry st !! B = Some eB → _registry st !! C = Some eC →
  filename eB = B → filename eC = C →
  accepted eB = false → accepted eC = false →
  _graph st = [(B, C)] →
  ∃ reloaded st', reload_entry C st = Some ([B], reloaded, st').
Proof.
  intros Hne HB HC HfB HfC HaB HaC Hg.
  assert (Graph.removeDependencies [(B, C)] C = ([(B, C)], [])) as Hrm1.
  { unfold Graph.removeDependencies, Graph.getDependantsOf. simpl.
    repeat (rewrite ?filter_cons, ?filter_nil; simpl; repeat case_decide;
            simpl in *; try congruence; try done). }
  assert (Graph.getDependantsOf [(B, C)] C = [B]) as Hdep1.
  { unfold Graph.getDependantsOf. simpl.
    repeat (rewrite ?filter_cons, ?filter_nil; simpl; repeat case_decide;
            simpl in *; try congruence; try done). }
  assert (Graph.removeDependencies [(B, C)] B = ([], [C])) as Hrm2.
  { unfold Graph.removeDependencies, Graph.getDependantsOf. simpl.
    repeat (rewrite ?filter_cons, ?filter_nil; simpl; repeat case_decide;
            simpl in *; try congruence; try done). }
  destruct (unload_fields C eC st HC) as (He1 & Hg1 & _).
  rewrite Hg, HfC, Hrm1 in Hg1. simpl in Hg1.
  destruct (same_entries_lookup _ _ B eB He1 HB) as (eB' & HB' & Heq).
  assert (filename eB' = B ∧ accepted eB' = false) as [HfB' HaB'].
  { split; [apply (f_equal filename) in Heq | apply (f_equal accepted) in Heq];
      simpl in Heq; congruence. }
  eexists _, _. apply (reload_entry_fuel 2).
  rewrite (reload_unfold 1 C eC) by done.
  unfold dependants_of. rewrite Hg1, HfC, Hdep1, HaC. simpl.
  rewrite for_of_one. simpl. rewrite HB'.
  rewrite decide_False by set_solver.
  rewrite (reload_unfold 0 B eB') by done.
  unfold dependants_of.
  destruct (unload_fields B eB' (unload C eC st) HB') as (_ & Hg2 & _).
  rewrite Hg2, Hg1, HfB', Hrm2, HaB'. simpl.
  reflexivity.
Qed.


(** C2, as the code has it.  For every chain in which the entry point [A]
    requires [B] and [B] requires [C], the three files being distinct and
    [B] and [C] eligible, and nothing accepted: once the program has run the
    graph holds the edge from [B] to [C] and no other, and a change of [C]
    yields the acceptee set [B] alone.  The hook records no edge for the
    entry point, so the propagation finds [B] without dependants. *)
Theorem chain_change_reloads_middle (A B C : string) :
  A ≠ B → B ≠ C → A ≠ C →
  isEligible default_cfg B = true →
  isEligible default_cfg C = true →
  ∃ st,
    Node.run (Scenario.chain_of A B C) 3 A (initial None) = Some st ∧
    (∀ k e, _registry st !! k = Some e → accepted e = false) ∧
    _graph st = [(B, C)] ∧
    C ∈ _watcher st ∧
    ∃ reloaded st', reload_entry C st = Some ([B], reloaded, st').
Proof.
  intros HAB HBC HAC HB HC.
  assert (Scenario.chain_of A B C A = [Node.Require B]) as PA
    by (unfold Scenario.chain_of; by rewrite decide_True).
  assert (Scenario.chain_of A B C B = [Node.Require C]) as PB.
  { unfold Scenario.chain_of. rewrite decide_False by done. by rewrite decide_True. }
  assert (Scenario.chain_of A B C C = []) as PC.
  { unfold Scenario.chain_of. rewrite decide_False by done. by rewrite decide_False. }
  eexists. split.
  { (* the entry point runs: it requires [B] *)
    unfold Node.run, Node.start. rewrite PA.
    unfold Node.load at 1. rewrite for_of_one.
    unfold Node.execute at 1. unfold Module_prototype_require at 1. norm.
    rewrite require_miss by (norm; by lookups).
    (* [B] is loaded through the hook, and requires [C] *)
    unfold Module_prototype_load at 1. norm.
    rewrite HB. unfold injectFile, registerFile. norm. lookups. norm.
    rewrite PB. unfold Node.load at 1. rewrite for_of_one.
    unfold Node.execute at 1. unfold Module_prototype_require at 1. norm.
    rewrite require_miss by (norm; by lookups).
    (* [C] is loaded through the hook *)
    unfold Module_prototype_load at 1. norm.
    rewrite HC. unfold injectFile, registerFile. norm. lookups. norm.
    rewrite PC. unfold Node.load at 1. rewrite for_of_nil. norm.
    change (cfg_patchExports default_cfg) with false. norm.
    (* back in the hook, for [B] requiring [C] *)
    rewrite HC. norm. lookups. norm.
    rewrite bool_decide_eq_false_2 by lia. norm.
    unfold Graph.empty, Graph.addDependency.
    rewrite decide_False by apply not_elem_of_nil. cbn [app].
    change (cfg_patchExports default_cfg) with false. norm.
    (* back in the hook, for the entry point requiring [B] *)
    rewrite HB. norm. lookups. norm.
    rewrite bool_decide_eq_true_2 by done. norm.
    reflexivity. }
  norm.
  split.
  { intros k e Hk.
    apply lookup_insert_Some in Hk as [[_ <-]|[_ Hk]]; [done |].
    apply lookup_insert_Some in Hk as [[_ <-]|[_ Hk]]; [done |].
    by rewrite lookup_empty in Hk. }
  split; [done |]. split; [set_solver |].
  eapply (reload_chain_middle _ B C); [done | norm; lookups; reflexivity ..| | | | |];
    norm; by lookups.
Qed.

(** The chain of [a.js], [b.js] and [c.js]. *)
Lemma chain_change_reloads_middle_on_app :
  ∃ st,
    Node.run Scenario.chain 3 "/app/a.js" (initial None) = Some st ∧
    (∀ k e, _registry st !! k = Some e → accepted e = false) ∧
    _graph st = [("/app/b.js", "/app/c.js")] ∧
    "/app/c.js" ∈ _watcher st ∧
    ∃ reloaded st', reload_entry "/app/c.js" st = Some (["/app/b.js"], reloaded, st').
Proof.
  apply (chain_change_reloads_middle "/app/a.js" "/app/b.js" "/app/c.js").
  - discriminate.
  - discriminate.
  - discriminate.
  - vm_compute; reflexivity.
  - vm_compute; reflexivity.
Defined.


(** ** The control object *)




(** ** Acceptance *)

Lemma accepted_at_same k st st' :
  same_entries (_registry st) (_registry st') → accepted_at k st → accepted_at k st'.
Proof.
  intros He (e & Hk & Ha).
  destruct (same_entries_lookup _ _ k e He Hk) as (e' & Hk' & Heq).
  exists e'. split; [done |]. apply (f_equal accepted) in Heq. simpl in Heq. congruence.
Qed.

Lemma accepted_at_alter (f : RegistryEntry → RegistryEntry) k entry st :
  (∀ e, accepted e = true → accepted (f e) = true) →
  accepted_at k st →
  accepted_at k (with_registry (alter f entry (_registry st)) st).
Proof.
  intros Hf (e & Hk & Ha). simpl. destruct (decide (entry = k)) as [->|Hne].
  - exists (f e). simpl. rewrite lookup_alter_eq, Hk. split; [done | by apply Hf].
  - exists e. simpl. by rewrite lookup_alter_ne.
Qed.

Lemma hot_patch_registry entry constructors st st' :
  hot_patch entry constructors st = Some st' →
  trace st' = trace st ++ [EvPatch entry constructors] ∧
  _graph st' = _graph st ∧ _watcher st' = _watcher st ∧
  require_cache st' = require_cache st ∧ _cfg st' = _cfg st ∧
  ∀ k, set_patchees ∅ <$> _registry st' !! k = set_patchees ∅ <$> _registry st !! k.
Proof.
  intros Hrun. unfold hot_patch in Hrun.
  apply (for_of_invariant
           (λ _ w, trace w = trace st ++ [EvPatch entry constructors] ∧
                   _graph w = _graph st ∧ _watcher w = _watcher st ∧
                   require_cache w = require_cache st ∧ _cfg w = _cfg st ∧
                   ∀ k, set_patchees ∅ <$> _registry w !! k
                        = set_patchees ∅ <$> _registry st !! k)
           _ _ _ _) in Hrun; [done | done |].
  clear. intros _ current w w' _ (Ht & Hg & Hw & Hc & Hcfg & Hreg) Hbody.
  destruct (_registry w !! entry) as [e0|] eqn:He0; simpl in Hbody; [| done].
  destruct (constructor_of (heap w) current) as [[name p]|]; simpl in Hbody; [| done].
  destruct (for_of _ _ _) as [h|]; simpl in Hbody; [| done].
  injection Hbody as <-. simpl. repeat (split; [done |]).
  intros k. rewrite <- Hreg. destruct (decide (entry = k)) as [<-|Hne].
  - by rewrite lookup_insert_eq, He0.
  - by rewrite lookup_insert_ne.
Qed.

Lemma hot_patch_lookup entry constructors st st' k e :
  hot_patch entry constructors st = Some st' →
  _registry st !! k = Some e →
  ∃ e', _registry st' !! k = Some e' ∧ set_patchees ∅ e' = set_patchees ∅ e.
Proof.
  intros Hrun Hk. apply hot_patch_registry in Hrun as (_ & _ & _ & _ & _ & Hreg).
  specialize (Hreg k). rewrite Hk in Hreg.
  destruct (_registry st' !! k) as [e'|]; simpl in Hreg; [| done].
  exists e'. split; [done | congruence].
Qed.

Lemma perform_accepted op st st' k :
  perform op st = Some st' → accepted_at k st → accepted_at k st'.
Proof.
  intros Hop Hacc. destruct op as [entry|entry f|entry f|entry cs|m file|m file|opts|entry];
    simpl in Hop.
  - injection Hop as <-. by apply accepted_at_alter.
  - injection Hop as <-. by apply accepted_at_alter.
  - injection Hop as <-. unfold hot_restore.
    destruct (_registry st !! entry ≫= stash); [| done].
    by apply (accepted_at_alter _ k entry (log _ st)).
  - destruct Hacc as (e & Hk & Ha).
    destruct (hot_patch_lookup _ _ _ _ k e Hop Hk) as (e' & Hk' & Heq).
    exists e'. split; [done |]. apply (f_equal accepted) in Heq. simpl in Heq. congruence.
  - injection Hop as <-. unfold registerFile.
    destruct (_registry st !! file) as [e0|] eqn:Hf; simpl; [done |].
    destruct Hacc as (e & Hk & Ha). exists e. simpl. split; [| done].
    rewrite lookup_insert_ne; [done | congruence].
  - injection Hop as <-. unfold injectFile.
    destruct (m_hot m); simpl; [done |]. unfold registerFile.
    destruct (_registry st !! file) as [e0|] eqn:Hf; simpl; [done |].
    destruct Hacc as (e & Hk & Ha). exists e. simpl. split; [| done].
    rewrite lookup_insert_ne; [done | congruence].
  - injection Hop as <-. done.
  - destruct (reload_entry entry st) as [[[acc rel] s]|] eqn:Hrun; simpl in Hop; [| done].
    injection Hop as <-.
    apply reload_advances in Hrun as [(He & _) _]; [| set_solver].
    by apply (accepted_at_same k st).
Qed.

(** ** The registry stays well formed *)

Lemma registry_wf_initial (main : option NodeModule) : registry_wf (initial main).
Proof. intros k e Hk. simpl in Hk. by rewrite lookup_empty in Hk. Qed.

Lemma registry_wf_alter (f : RegistryEntry → RegistryEntry) (entry : string) (st : State) :
  (∀ e, filename (f e) = filename e) →
  registry_wf st → registry_wf (with_registry (alter f entry (_registry st)) st).
Proof.
  intros Hf Hwf k e' Hk. simpl in Hk.
  destruct (decide (entry = k)) as [->|Hne].
  - rewrite lookup_alter_eq in Hk.
    destruct (_registry st !! k) as [e|] eqn:He; simpl in Hk; [| done].
    injection Hk as <-. rewrite Hf. by apply (Hwf k e).
  - rewrite lookup_alter_ne in Hk by done. by apply (Hwf k e').
Qed.

Lemma registerFile_wf (m : NodeModule) (file : string) (st : State) :
  registry_wf st → registry_wf (registerFile m file st).2.
Proof.
  intros Hwf. unfold registerFile.
  destruct (_registry st !! file) eqn:Hf; simpl; [done |].
  intros k e Hk. simpl in Hk. apply lookup_insert_Some in Hk as [[<- <-]|[_ Hk]]; [done |].
  by apply (Hwf k e).
Qed.

Lemma perform_registry_wf (op : Operation) (st st' : State) :
  perform op st = Some st' → registry_wf st → registry_wf st'.
Proof.
  intros Hop Hwf. destruct op as [entry|entry f|entry f|entry cs|m file|m file|opts|entry];
    simpl in Hop.
  - injection Hop as <-. by apply registry_wf_alter.
  - injection Hop as <-. by apply registry_wf_alter.
  - injection Hop as <-. unfold hot_restore.
    destruct (_registry st !! entry ≫= stash); [| done].
    by apply (registry_wf_alter _ entry (log _ st)).
  - apply hot_patch_registry in Hop as (_ & _ & _ & _ & _ & Hreg).
    intros k e' Hk. specialize (Hreg k). rewrite Hk in Hreg.
    destruct (_registry st !! k) as [e|] eqn:He; simpl in Hreg; [| done].
    assert (filename e' = filename e) as -> by (injection Hreg; congruence).
    by apply (Hwf k e).
  - injection Hop as <-. by apply registerFile_wf.
  - injection Hop as <-. unfold injectFile.
    destruct (m_hot m); simpl; [done |].
    pose proof (registerFile_wf m file st Hwf) as Hreg.
    by destruct (registerFile m file st).
  - injection Hop as <-. done.
  - destruct (reload_entry entry st) as [[[acc rel] s]|] eqn:Hrun; simpl in Hop; [| done].
    injection Hop as <-.
    apply reload_advances in Hrun as [(He & _) _]; [| set_solver].
    by apply (registry_wf_same st).
Qed.

(** C7.  [accept] sets the flag of its entry and doing so twice is doing
    so once; and whatever sequence of [accept], [store], [restore], [patch],
    [registerFile], [injectFile], [configure] and [reload] is performed, an
    entry that is accepted stays accepted. *)
Theorem accepted_never_reset :
  (∀ entry st, is_Some (_registry st !! entry) → accepted_at entry (hot_accept entry st)) ∧
  (∀ entry st, hot_accept entry (hot_accept entry st) = hot_accept entry st) ∧
  (∀ ops st st' k,
     for_of ops perform st = Some st' → accepted_at k st → accepted_at k st').
Proof.
  split; [| split].
  - intros entry st [e Hk]. exists (set_accepted true e). simpl.
    by rewrite lookup_alter_eq, Hk.
  - intros entry st. unfold hot_accept. simpl.
    assert (alter (set_accepted true) entry (alter (set_accepted true) entry (_registry st))
            = alter (set_accepted true) entry (_registry st)) as ->; [| done].
    apply map_eq. intros k. destruct (decide (entry = k)) as [<-|Hne].
    + rewrite !lookup_alter_eq. by destruct (_registry st !! entry).
    + by rewrite !lookup_alter_ne.
  - intros ops st st' k Hrun Hacc.
    apply (for_of_invariant (λ _ w, accepted_at k w) _ _ _ _) in Hrun; [done | done |].
    intros _ op w w' _ Hw Hop. by apply (perform_accepted op w).
Qed.

(** The entry of [w.js] is accepted, and goes through every operation. *)
Lemma accepted_survives_operations :
  accepted_at "/app/w.js" Scenario.widget_state ∧
  for_of Scenario.widget_operations perform Scenario.widget_state
  = Some Scenario.widget_operated ∧
  accepted_at "/app/w.js" Scenario.widget_operated.
Proof.
  assert (accepted_at "/app/w.js" Scenario.widget_state) as Haccepted.
  { exists Scenario.widget_entry. split; [vm_compute; reflexivity | reflexivity]. }
  split; [exact Haccepted |].
  split; [vm_compute; reflexivity |].
  apply (proj2 (proj2 accepted_never_reset) Scenario.widget_operations
           Scenario.widget_state Scenario.widget_operated "/app/w.js").
  - vm_compute; reflexivity.
  - exact Haccepted.
Defined.


(** ** The patcher *)

Lemma get_set_property (o : Object) (k key : string) (v : Value) :
  get_property (set_property o k v) key
  = if decide (k = key) then Some v else get_property o key.
Proof.
  induction o as [|[k' w] o IH]; simpl.
  - by destruct (decide (k = key)).
  - destruct (decide (k' = k)) as [->|Hne]; simpl.
    + by destruct (decide (k = key)).
    + destruct (decide (k' = key)) as [->|Hne']; [by rewrite decide_False | done].
Qed.

(** What [assign] leaves in its target: the fields of the source that pass
    the filter, over the fields the target had. *)
Lemma assign_copies (target source : addr) (filter : string → bool) (h : Heap) (s t : Obj) :
  h !! source = Some s → h !! target = Some t → NoDup (own s).*1 →
  ∃ t', assign target source filter h !! target = Some t' ∧
        proto t' = proto t ∧ ctor t' = ctor t ∧
        (∀ key v, (key, v) ∈ own s → filter (typeof v) = true →
                  get_property (own t') key = Some v) ∧
        (∀ key, (∀ v, (key, v) ∈ own s → filter (typeof v) = false) →
                get_property (own t') key = get_property (own t) key) ∧
        (∀ a, a ≠ target → assign target source filter h !! a = h !! a).
Proof.
  intros Hs Ht. unfold assign. rewrite Hs. clear Hs.
  generalize (own s). clear s. intros l. revert h t Ht.
  induction l as [|[k v] l IH]; intros h t Ht Hnd; simpl.
  { exists t. repeat split; try done. intros key w Hin. by apply not_elem_of_nil in Hin. }
  apply NoDup_cons in Hnd as [Hk Hnd].
  destruct (filter (typeof v)) eqn:Hf.
  - destruct (IH (alter (λ x, set_own (set_property (own x) k v) x) target h)
                 (set_own (set_property (own t) k v) t)) as (t' & Ht' & Hp & Hc & Hin & Hout & Hoth);
      [by rewrite lookup_alter_eq, Ht | done |].
    exists t'. split; [done |]. split; [done |]. split; [done |]. split; [| split].
    + intros key w [Heq|Hw]%elem_of_cons Hfw; [| by apply Hin].
      injection Heq as -> ->. rewrite Hout.
      * simpl. rewrite get_set_property. by rewrite decide_True.
      * intros w Hw. exfalso. apply Hk. apply list_elem_of_fmap. by exists (k, w).
    + intros key Hno. rewrite Hout by (intros w Hw; apply Hno; by right).
      simpl. rewrite get_set_property.
      destruct (decide (k = key)) as [->|]; [| done].
      specialize (Hno v (list_elem_of_here _ _)). congruence.
    + intros a Ha. rewrite Hoth by done. by rewrite lookup_alter_ne.
  - destruct (IH h t Ht Hnd) as (t' & Ht' & Hp & Hc & Hin & Hout & Hoth).
    exists t'. split; [done |]. split; [done |]. split; [done |]. split; [| split; [| done]].
    + intros key w [Heq|Hw]%elem_of_cons Hfw; [| by apply Hin].
      injection Heq as -> ->. congruence.
    + intros key Hno. apply Hout. intros w Hw. apply Hno. by right.
Qed.




(** The patcher never changes what is a constructor, nor its name. *)
Lemma alter_constructor_of (f : Obj → Obj) (target a : addr) (h : Heap) :
  (∀ x, ctor (f x) = ctor x) →
  constructor_of (alter f target h) a = constructor_of h a.
Proof.
  intros Hf. unfold constructor_of. destruct (decide (target = a)) as [->|Hne].
  - rewrite lookup_alter_eq. destruct (h !! a); simpl; [apply Hf | done].
  - by rewrite lookup_alter_ne.
Qed.

Lemma assign_constructor_of (target source : addr) (filter : string → bool) (h : Heap) (a : addr) :
  constructor_of (assign target source filter h) a = constructor_of h a.
Proof.
  unfold assign. destruct (h !! source) as [s|]; [| done].
  generalize (own s). clear s. intros l. revert h.
  induction l as [|[k v] l IH]; intros h; [done |]. simpl.
  destruct (filter (typeof v)); [| apply IH].
  rewrite IH. by apply alter_constructor_of.
Qed.


(** ** The patcher returns *)

Lemma assign_is_Some (target source : addr) (filter : string → bool) (h : Heap) (a : addr) :
  is_Some (assign target source filter h !! a) ↔ is_Some (h !! a).
Proof.
  unfold assign. destruct (h !! source) as [s|]; [| done].
  generalize (own s). clear s. intros l. revert h.
  induction l as [|[k v] l IH]; intros h; [done |]. simpl.
  destruct (filter (typeof v)); [| apply IH].
  rewrite IH. apply lookup_alter_is_Some.
Qed.

Lemma assign_live (target source : addr) (filter : string → bool) (h : Heap) (c : addr) :
  live h c → live (assign target source filter h) c.
Proof.
  intros (name & p & Hc & Hp). exists name, p.
  by rewrite assign_constructor_of, assign_is_Some.
Qed.







(** ** [patchExports] *)






(** * Further properties of the code *)

(** ** A relation every step of [reload] respects *)

Section ReloadInduction.

Variable Pre : Visit → Prop.
Variable R : Visit → Visit → Prop.

Hypothesis R_refl : ∀ v, R v v.
Hypothesis R_trans : ∀ v1 v2 v3, Pre v1 → R v1 v2 → R v2 v3 → R v1 v3.
Hypothesis Pre_R : ∀ v v', Pre v → R v v' → Pre v'.
Hypothesis R_step : ∀ entry e acc rel st acc',
  Pre (acc, rel, st) → _registry st !! entry = Some e → entry ∉ rel →
  acc' = acc ∨
    (acc' = set_add (filename e) acc ∧
     (accepted e = true ∨ dependants_of entry e st = [])) →
  R (acc, rel, st) (acc', {[entry]} ∪ rel, unload entry e st).

(** A relation that every step of [reload] respects holds of the whole call. *)
Lemma reload_respects (fuel : nat) entry acc rel st v' :
  Pre (acc, rel, st) → entry ∉ rel →
  reload fuel entry acc rel st = Some v' →
  R (acc, rel, st) v'.
Proof using R_refl R_trans Pre_R R_step.
  revert entry acc rel st v'.
  induction fuel as [|fuel IH]; intros entry acc rel st v' Hpre Hnew Hrun; [done |].
  destruct (_registry st !! entry) as [e|] eqn:Hk; [| by rewrite reload_unregistered in Hrun].
  rewrite (reload_unfold _ _ e) in Hrun by done.
  destruct (accepted e || bool_decide (dependants_of entry e st = [])) eqn:Hroot.
  - injection Hrun as <-. apply R_step; [done.. |]. right. split; [done |].
    apply orb_true_iff in Hroot as [?|?%bool_decide_eq_true]; auto.
  - pose proof (R_step entry e acc rel st acc Hpre Hk Hnew (or_introl eq_refl)) as Hun.
    pose proof (Pre_R _ _ Hpre Hun) as Hpre1.
    apply (R_trans _ _ _ Hpre Hun).
    apply (for_of_invariant
             (λ _ w, R (acc, {[entry]} ∪ rel, unload entry e st) w) _ _ _ _) in Hrun;
      [done | apply R_refl |].
    clear v' Hrun. intros _ d [[acc2 rel2] st2] w' _ Hsofar Hbody.
    apply (R_trans _ (acc2, rel2, st2)); [done.. |].
    simpl in Hbody. destruct (_registry st2 !! d) as [e2|] eqn:Hd.
    + destruct (decide (d ∈ rel2)) as [Hin|Hout].
      * injection Hbody as <-. apply R_refl.
      * apply (IH d acc2 rel2 st2); [by eapply Pre_R | done..].
    + injection Hbody as <-. apply R_refl.
Qed.

End ReloadInduction.

Lemma watcher_unwatch_all (removed : list string) (st : State) (file : string) :
  file ∈ _watcher (foldl watcher_unwatch st removed) ↔ file ∈ _watcher st ∧ file ∉ removed.
Proof.
  revert st. induction removed as [|d removed IH]; intros st; simpl.
  - split; [intros ?; split; [done | by intros ?%not_elem_of_nil] | by intros []].
  - rewrite IH. unfold watcher_unwatch. simpl.
    rewrite elem_of_difference, elem_of_singleton, not_elem_of_cons. naive_solver.
Qed.

Lemma no_dependants_subgraph (g g' : Graph.t) (file : string) :
  (∀ edge, edge ∈ g' → edge ∈ g) →
  Graph.getDependantsOf g file = [] → Graph.getDependantsOf g' file = [].
Proof.
  intros Hsub Hnone.
  destruct (Graph.getDependantsOf g' file) as [|a rest] eqn:Hg; [done |].
  assert (a ∈ Graph.getDependantsOf g file) as Hin.
  { apply GraphFacts.elem_of_getDependantsOf, Hsub, GraphFacts.elem_of_getDependantsOf.
    rewrite Hg. apply list_elem_of_here. }
  rewrite Hnone in Hin. by apply not_elem_of_nil in Hin.
Qed.

Lemma stashed_fields (e : RegistryEntry) :
  filename (stashed e) = filename e ∧ accepted (stashed e) = accepted e ∧
  mod_ (stashed e) = mod_ e ∧ store (stashed e) = store e ∧
  patchees (stashed e) = patchees e.
Proof. unfold stashed. destruct (store e) eqn:Hs; simpl; rewrite ?Hs; done. Qed.

Lemma sweeps_refl (v : Visit) : sweeps v v.
Proof.
  destruct v as [[acc rel] st].
  split; [done |]. split.
  { intros k. case_decide; [set_solver | done]. }
  split; [intros edge; set_solver |]. split.
  { intros k. destruct (_registry st !! k); simpl; [| done].
    case_decide; [set_solver | done]. }
  split; [split; [done | intros file ? ?; done] |].
  split; [done | by left].
Qed.

Lemma sweeps_wf (v v' : Visit) :
  registry_wf v.2 → sweeps v v' → registry_wf v'.2.
Proof.
  destruct v as [[acc rel] st], v' as [[acc' rel'] st']. simpl.
  intros Hwf (_ & _ & _ & Hreg & _) k e' Hk. simpl.
  rewrite Hreg in Hk. destruct (_registry st !! k) as [e|] eqn:He; [| done].
  simpl in Hk. injection Hk as <-.
  pose proof (Hwf k e He) as Hf. simpl in Hf.
  case_decide; [| done]. by destruct (stashed_fields e) as [-> _].
Qed.

Lemma sweeps_trans (v1 v2 v3 : Visit) :
  sweeps v1 v2 → sweeps v2 v3 → sweeps v1 v3.
Proof.
  destruct v1 as [[acc1 rel1] st1], v2 as [[acc2 rel2] st2], v3 as [[acc3 rel3] st3].
  intros (Hr1 & Hc1 & Hg1 & He1 & [Hw1 Hu1] & [Hn1 Ha1])
         (Hr2 & Hc2 & Hg2 & He2 & [Hw2 Hu2] & [Hn2 Ha2]).
  unfold cache_swept, edges_swept, entries_stashed in *.
  assert (∀ edge, edge ∈ _graph st3 → edge ∈ _graph st2) as Hsub
    by (intros edge Hin; by apply Hg2 in Hin as []).
  split; [set_solver |]. split.
  { intros k. rewrite Hc2, Hc1. repeat case_decide; try done; set_solver. }
  split.
  { intros edge. rewrite Hg2, Hg1. set_solver. }
  split.
  { intros k. rewrite He2, He1. destruct (_registry st1 !! k) as [e|]; simpl; [| done].
    f_equal. repeat case_decide; try done; set_solver. }
  split.
  { split; [set_solver |]. intros file Hin Hout.
    destruct (decide (file ∈ _watcher st2)) as [Hin2|Hout2].
    - destruct (Hu2 file Hin2 Hout) as (Hnone & k & Hk & Hedge). split; [done |].
      exists k. apply Hg1 in Hedge as [Hedge _]. set_solver.
    - destruct (Hu1 file Hin Hout2) as (Hnone & k & Hk & Hedge).
      split; [by eapply no_dependants_subgraph |]. exists k. set_solver. }
  split; [auto |].
  intros x Hx. destruct (Ha2 x Hx) as [Hx2|(Hk & e2 & Hreg & Hwhy)].
  - destruct (Ha1 x Hx2) as [?|(Hk & e & Hreg & Hwhy)]; [by left | right].
    split; [set_solver |]. exists e. split; [done |].
    destruct Hwhy as [?|Hnone]; [by left | right]. by eapply no_dependants_subgraph.
  - right. split; [set_solver |].
    rewrite He1 in Hreg. destruct (_registry st1 !! x) as [e|]; [| done].
    exists e. split; [done |]. simpl in Hreg. injection Hreg as <-.
    destruct Hwhy as [Hacc|?]; [left | by right].
    case_decide; [| done]. by destruct (stashed_fields e) as (_ & <- & _).
Qed.

Lemma unload_sweeps entry e acc rel st acc' :
  registry_wf st → _registry st !! entry = Some e → entry ∉ rel →
  acc' = acc ∨
    (acc' = set_add (filename e) acc ∧
     (accepted e = true ∨ dependants_of entry e st = [])) →
  sweeps (acc, rel, st) (acc', {[entry]} ∪ rel, unload entry e st).
Proof.
  intros Hwf Hk Hnew Hacc.
  pose proof (Hwf entry e Hk) as Hfile. simpl in Hfile.
  assert (∀ k, k ∈ ({[entry]} ∪ rel) ∖ rel ↔ k = entry) as Hdiff by set_solver.
  assert (_registry (unload entry e st) = <[entry := stashed e]> (_registry st) ∧
          require_cache (unload entry e st) = delete entry (require_cache st) ∧
          _graph (unload entry e st) = (Graph.removeDependencies (_graph st) entry).1 ∧
          ∀ file, file ∈ _watcher (unload entry e st) ↔
                  file ∈ _watcher st ∧ file ∉ (Graph.removeDependencies (_graph st) entry).2)
    as (Hreg & Hcache & Hgraph & Hwatch).
  { assert (_registry (run_store entry e st) = <[entry := stashed e]> (_registry st) ∧
            require_cache (run_store entry e st) = require_cache st ∧
            _graph (run_store entry e st) = _graph st ∧
            _watcher (run_store entry e st) = _watcher st) as (Hr & Hc & Hg & Hw).
    { unfold run_store, stashed. destruct (store e) as [stasher|] eqn:Hs; simpl.
      - unfold set_stash. by rewrite Hs.
      - split; [| done]. symmetry. by apply insert_id. }
    unfold unload. cbv zeta. rewrite Hfile.
    set (st1 := run_store entry e st) in *.
    set (st2 := log (EvEvict entry) (with_cache (delete entry (require_cache st1)) st1)).
    set (removed := Graph.removeDependencies (_graph st2) entry).
    set (st3 := log (EvRemoveDependencies entry) (with_graph removed.1 st2)).
    destruct (unwatch_all_fields removed.2 st3) as (Hr3 & Hg3 & Hc3 & _).
    pose proof (watcher_unwatch_all removed.2 st3) as Hall.
    cbv zeta in Hr3, Hg3, Hc3. rewrite Hr3, Hg3, Hc3.
    change (_registry st3) with (_registry st1).
    change (require_cache st3) with (delete entry (require_cache st1)).
    change (_graph st3) with removed.1.
    change (_watcher st3) with (_watcher st1) in Hall.
    assert (removed = Graph.removeDependencies (_graph st) entry) as Hrem
      by (unfold removed; change (_graph st2) with (_graph st1); by rewrite Hg).
    rewrite Hr, Hc, <- Hrem, <- Hw.
    split; [done |]. split; [done |]. split; [done |]. exact Hall. }
  split; [set_solver |]. split.
  { intros k. rewrite Hcache. case_decide as Hin.
    - apply Hdiff in Hin as ->. apply lookup_delete_eq.
    - apply lookup_delete_ne. intros <-. by apply Hin, Hdiff. }
  split.
  { intros edge. rewrite Hgraph, GraphFacts.elem_of_removeDependencies, Hdiff. done. }
  split.
  { intros k. rewrite Hreg. destruct (decide (k = entry)) as [->|Hne].
    - rewrite lookup_insert_eq, Hk. simpl. by rewrite decide_True by by apply Hdiff.
    - rewrite lookup_insert_ne by done. destruct (_registry st !! k); simpl; [| done].
      by rewrite decide_False by (intros ?%Hdiff; done). }
  split.
  { split; [intros file Hin; by apply Hwatch in Hin as [] |].
    intros file Hin Hout.
    assert (file ∈ (Graph.removeDependencies (_graph st) entry).2) as Hrem.
    { destruct (decide (file ∈ (Graph.removeDependencies (_graph st) entry).2)); [done |].
      exfalso. apply Hout, Hwatch. done. }
    apply GraphFacts.removed_orphaned in Hrem as [Hedge Hnone].
    rewrite Hgraph. split; [done |]. exists entry. split; [by apply Hdiff | done]. }
  destruct Hacc as [->|[-> Hwhy]]; [split; [done | by left] |].
  split.
  { intros Hnd. unfold set_add. case_decide; [done |].
    apply NoDup_app. split; [done |]. split; [| apply NoDup_singleton].
    intros x Hx ->%list_elem_of_singleton. done. }
  intros x [Hx| ->]%elem_of_set_add; [by left | right]. rewrite Hfile.
  split; [by apply Hdiff |]. exists e. split; [done |].
  destruct Hwhy as [?|Hnone]; [by left | right].
  unfold dependants_of in Hnone. by rewrite Hfile in Hnone.
Qed.

Lemma reload_sweeps (fuel : nat) entry acc rel st v' :
  registry_wf st → entry ∉ rel →
  reload fuel entry acc rel st = Some v' →
  sweeps (acc, rel, st) v'.
Proof.
  intros Hwf. apply (reload_respects (λ v, registry_wf v.2) sweeps); [| | | | done].
  - apply sweeps_refl.
  - intros v1 v2 v3 _. apply sweeps_trans.
  - intros v w. apply sweeps_wf.
  - intros ? ? ? ? ? ? ?. by apply unload_sweeps.
Qed.

Lemma reload_entry_sweeps (entry : string) (st : State) :
  registry_wf st → is_Some (_registry st !! entry) →
  ∃ acceptees reloaded st',
    reload_entry entry st = Some (acceptees, reloaded, st') ∧
    entry ∈ reloaded ∧
    sweeps ([], ∅, st) (acceptees, reloaded, st').
Proof.
  intros Hwf Hk.
  destruct (reload_entry_terminates entry st Hk) as ([[acceptees reloaded] st'] & Hrun).
  specialize (Hrun _ (Nat.lt_succ_diag_r _)).
  exists acceptees, reloaded, st'. split; [done |].
  split; [by apply (reload_advances _ _ _ _ _ _ Hrun) |].
  by apply (reload_sweeps _ _ _ _ _ _ Hwf (not_elem_of_empty entry) Hrun).
Qed.

(** ** What a change leaves behind *)


(** X2.  [reload] adds no edge to the graph and removes exactly the
    outgoing edges of the entries it visited. *)
Theorem reload_cuts_outgoing_edges (st : State) (entry : string) :
  registry_wf st →
  is_Some (_registry st !! entry) →
  ∃ acceptees reloaded st',
    reload_entry entry st = Some (acceptees, reloaded, st') ∧
    ∀ dependent dependency,
      (dependent, dependency) ∈ _graph st' ↔
      (dependent, dependency) ∈ _graph st ∧ dependent ∉ reloaded.
Proof.
  intros Hwf Hk.
  destruct (reload_entry_sweeps entry st Hwf Hk)
    as (acceptees & reloaded & st' & Hrun & _ & _ & _ & Hgraph & _).
  exists acceptees, reloaded, st'. split; [done |].
  intros dependent dependency. rewrite (Hgraph (dependent, dependency)). simpl.
  split; intros [Hedge Hout]; (split; [done | set_solver]).
Qed.


(** X4.  [reload] adds nothing to the watcher, and a file it stopped
    watching was a dependency of a visited entry that nothing in the graph
    depends on any more: a watched file that still has a dependant stays
    watched. *)
Theorem reload_unwatches_orphans (st : State) (entry : string) :
  registry_wf st →
  is_Some (_registry st !! entry) →
  ∃ acceptees reloaded st',
    reload_entry entry st = Some (acceptees, reloaded, st') ∧
    _watcher st' ⊆ _watcher st ∧
    (∀ file, file ∈ _watcher st → file ∉ _watcher st' →
       Graph.getDependantsOf (_graph st') file = [] ∧
       ∃ k, k ∈ reloaded ∧ (k, file) ∈ _graph st) ∧
    (∀ file dependant, file ∈ _watcher st → (dependant, file) ∈ _graph st' →
       file ∈ _watcher st').
Proof.
  intros Hwf Hk.
  destruct (reload_entry_sweeps entry st Hwf Hk)
    as (acceptees & reloaded & st' & Hrun & _ & _ & _ & _ & _ & [Hsub Hgone] & _).
  exists acceptees, reloaded, st'. split; [done |]. split; [done |].
  split.
  - intros file Hin Hout. destruct (Hgone file Hin Hout) as (Hnone & k & Hv & Hedge).
    split; [done |]. exists k. split; [set_solver | done].
  - intros file dependant Hin Hedge.
    destruct (decide (file ∈ _watcher st')) as [|Hout]; [done | exfalso].
    destruct (Hgone file Hin Hout) as [Hnone _].
    apply GraphFacts.elem_of_getDependantsOf in Hedge.
    rewrite Hnone in Hedge. by apply not_elem_of_nil in Hedge.
Qed.

(** X5.  The acceptee set [reload] returns has no file twice, and each
    acceptee is the file of a visited, registered entry that is out of
    [require.cache] and either has accepted or has no dependant left in the
    graph. *)
Theorem acceptees_are_settled (st : State) (entry : string) :
  registry_wf st →
  is_Some (_registry st !! entry) →
  ∃ acceptees reloaded st',
    reload_entry entry st = Some (acceptees, reloaded, st') ∧
    NoDup acceptees ∧
    ∀ x, x ∈ acceptees →
      x ∈ reloaded ∧ require_cache st' !! x = None ∧
      ∃ e, _registry st !! x = Some e ∧
           (accepted e = true ∨ Graph.getDependantsOf (_graph st') x = []).
Proof.
  intros Hwf Hk.
  destruct (reload_entry_sweeps entry st Hwf Hk)
    as (acceptees & reloaded & st' & Hrun & _ & _ & Hcache & _ & _ & _ & Hnd & Hacc).
  exists acceptees, reloaded, st'. split; [done |].
  split; [apply Hnd; constructor |].
  intros x Hx. destruct (Hacc x Hx) as [Hnil|(Hv & e & He & Hwhy)].
  { by apply not_elem_of_nil in Hnil. }
  split; [set_solver |]. split; [| by exists e].
  rewrite Hcache. by rewrite decide_True.
Qed.

(** The call of [reload] on an unvisited entry adds an acceptee, as long
    as every dependent the graph names is registered and unvisited. *)
Lemma reload_adds (fuel : nat) entry acc rel st acc' rel' st' :
  registry_wf st →
  (∀ a b, (a, b) ∈ _graph st → is_Some (_registry st !! a) ∧ a ∉ rel) →
  (∀ x, x ∈ acc → x ∈ rel) →
  entry ∉ rel →
  reload fuel entry acc rel st = Some (acc', rel', st') →
  ∃ x, x ∈ acc' ∧ x ∉ acc.
Proof.
  revert entry acc rel st acc' rel' st'.
  induction fuel as [|fuel IH]; intros entry acc rel st acc' rel' st' Hwf Hgraph Hacc Hnew Hrun;
    [done |].
  destruct (_registry st !! entry) as [e|] eqn:Hk; [| by rewrite reload_unregistered in Hrun].
  rewrite (reload_unfold _ _ e) in Hrun by done.
  pose proof (Hwf entry e Hk) as Hfile. simpl in Hfile.
  destruct (accepted e || bool_decide (dependants_of entry e st = [])) eqn:Hroot.
  { injection Hrun as <- <- <-. exists entry. rewrite Hfile.
    split; [apply elem_of_set_add; by right | intros Hin; by apply Hnew, Hacc]. }
  apply orb_false_iff in Hroot as [_ Hsome%bool_decide_eq_false].
  pose proof (unload_sweeps entry e acc rel st acc Hwf Hk Hnew (or_introl eq_refl))
    as Hun.
  pose proof (sweeps_wf (acc, rel, st) _ Hwf Hun) as Hwf1. simpl in Hwf1.
  destruct Hun as (_ & _ & Hedges & Hreg & _).
  unfold edges_swept, entries_stashed in Hedges, Hreg.
  destruct (dependants_of entry e st) as [|d ds] eqn:Hdeps; [done |].
  rewrite for_of_cons in Hrun.
  assert (d ∈ dependants_of entry e st) as Hd by (rewrite Hdeps; apply list_elem_of_here).
  unfold dependants_of in Hd.
  apply GraphFacts.elem_of_getDependantsOf, Hedges in Hd as [Hd Hne]. simpl in Hne.
  destruct (Hgraph _ _ Hd) as [[ed Hed] Hfresh].
  assert (d ∉ {[entry]} ∪ rel) as Hout by set_solver.
  assert (visit_dependant (reload fuel) d (acc, {[entry]} ∪ rel, unload entry e st)
          = reload fuel d acc ({[entry]} ∪ rel) (unload entry e st)) as Hvisit.
  { unfold visit_dependant. rewrite Hreg, Hed. simpl. by rewrite decide_False. }
  rewrite Hvisit in Hrun.
  destruct (reload fuel d acc ({[entry]} ∪ rel) (unload entry e st))
    as [[[acc1 rel1] st1]|] eqn:Hfirst; [| done].
  simpl in Hrun.
  assert (∀ a b, (a, b) ∈ _graph (unload entry e st) →
            is_Some (_registry (unload entry e st) !! a) ∧ a ∉ {[entry]} ∪ rel) as Hgraph1.
  { intros a b Hab. apply Hedges in Hab as [Hab Hna]. simpl in Hna.
    destruct (Hgraph _ _ Hab) as [[ea Hea] Hfa].
    split; [| set_solver]. rewrite Hreg, Hea. by eexists. }
  assert (∀ x, x ∈ acc → x ∈ {[entry]} ∪ rel) as Hacc1 by (intros x Hx; set_solver).
  destruct (IH _ _ _ _ _ _ _ Hwf1 Hgraph1 Hacc1 Hout Hfirst) as (x & Hx & Hnx).
  exists x. split; [| done].
  apply (visit_dependants_advances _ _ _ _ (reload_advances fuel)) in Hrun as [Hloop _].
  destruct Hloop as (_ & _ & _ & Hmono & _). by apply Hmono.
Qed.

(** X6.  When every dependent the graph names has a registry entry, a
    change never comes to nothing: the acceptee set of [reload] is not
    empty. *)
Theorem change_reloads_something (st : State) (entry : string) :
  registry_wf st →
  (∀ dependent dependency,
     (dependent, dependency) ∈ _graph st → is_Some (_registry st !! dependent)) →
  is_Some (_registry st !! entry) →
  ∃ acceptees reloaded st',
    reload_entry entry st = Some (acceptees, reloaded, st') ∧ acceptees ≠ [].
Proof.
  intros Hwf Hgraph Hk.
  destruct (reload_entry_terminates entry st Hk) as ([[acceptees reloaded] st'] & Hrun).
  specialize (Hrun _ (Nat.lt_succ_diag_r _)).
  exists acceptees, reloaded, st'. split; [done |].
  assert (∀ a b, (a, b) ∈ _graph st → is_Some (_registry st !! a) ∧ a ∉ (∅ : gset string))
    as Hgraph0 by (intros a b Hab; split; [by eapply Hgraph | set_solver]).
  assert (∀ x : string, x ∈ @nil string → x ∈ (∅ : gset string)) as Hacc0
    by (by intros x ?%not_elem_of_nil).
  destruct (reload_adds _ _ _ _ _ _ _ _ Hwf Hgraph0 Hacc0 (not_elem_of_empty entry) Hrun)
    as (x & Hx & _).
  intros ->. by apply not_elem_of_nil in Hx.
Qed.

(** ** State that survives a reload *)


(** ** Entries are for good *)

Lemma perform_keeps_module (op : Operation) (st st' : State) (k : string) (e : RegistryEntry) :
  perform op st = Some st' → _registry st !! k = Some e →
  ∃ e', _registry st' !! k = Some e' ∧ mod_ e' = mod_ e ∧ filename e' = filename e.
Proof.
  intros Hop Hk.
  assert (∀ (f : RegistryEntry → RegistryEntry) entry s,
            (∀ x, mod_ (f x) = mod_ x ∧ filename (f x) = filename x) →
            _registry s = _registry st →
            ∃ e', _registry (with_registry (alter f entry (_registry s)) s) !! k = Some e' ∧
                  mod_ e' = mod_ e ∧ filename e' = filename e) as Halter.
  { intros f entry s Hf Hs. simpl. rewrite Hs. destruct (decide (entry = k)) as [->|Hne].
    - exists (f e). rewrite lookup_alter_eq, Hk. split; [done | apply Hf].
    - exists e. by rewrite lookup_alter_ne. }
  assert (∀ m file, ∃ e', _registry (registerFile m file st).2 !! k = Some e' ∧
                          mod_ e' = mod_ e ∧ filename e' = filename e) as Hregister.
  { intros m file. exists e. split; [| done]. unfold registerFile.
    destruct (_registry st !! file) as [e0|] eqn:Hf; simpl; [done |].
    rewrite lookup_insert_ne; [done | congruence]. }
  destruct op as [entry|entry f|entry f|entry cs|m file|m file|opts|entry]; simpl in Hop.
  - injection Hop as <-. by apply Halter.
  - injection Hop as <-. by apply Halter.
  - injection Hop as <-. unfold hot_restore.
    destruct (_registry st !! entry ≫= stash); [| by exists e].
    by apply (Halter _ entry (log _ st)).
  - destruct (hot_patch_lookup _ _ _ _ k e Hop Hk) as (e' & Hk' & Heq).
    exists e'. split; [done |].
    split; [apply (f_equal mod_) in Heq | apply (f_equal filename) in Heq]; done.
  - injection Hop as <-. apply Hregister.
  - injection Hop as <-. unfold injectFile.
    destruct (m_hot m); simpl; [by exists e |].
    destruct (Hregister m file) as (e' & He' & Heq). exists e'.
    by destruct (registerFile m file st).
  - injection Hop as <-. by exists e.
  - destruct (reload_entry entry st) as [[[acc rel] s]|] eqn:Hrun; simpl in Hop; [| done].
    injection Hop as <-.
    apply reload_advances in Hrun as [(He & _) _]; [| set_solver].
    destruct (same_entries_lookup _ _ k e He Hk) as (e' & Hk' & Heq).
    exists e'. split; [done |].
    split; [apply (f_equal mod_) in Heq | apply (f_equal filename) in Heq]; done.
Qed.

(** X8.  No operation of the file removes a registry entry or gives it
    another module or file name: an entry keeps the module record it was
    created with, however often the file is loaded again. *)
Theorem entries_are_permanent (ops : list Operation) (st st' : State) (k : string)
    (e : RegistryEntry) :
  for_of ops perform st = Some st' →
  _registry st !! k = Some e →
  ∃ e', _registry st' !! k = Some e' ∧ mod_ e' = mod_ e ∧ filename e' = filename e.
Proof.
  intros Hrun Hk.
  apply (for_of_invariant
           (λ _ w, ∃ e', _registry w !! k = Some e' ∧
                         mod_ e' = mod_ e ∧ filename e' = filename e) _ _ _ _) in Hrun;
    [done | by exists e |].
  intros _ op w w' _ (e1 & Hk1 & Hm1 & Hf1) Hop.
  destruct (perform_keeps_module op w w' k e1 Hop Hk1) as (e2 & Hk2 & Hm2 & Hf2).
  exists e2. split; [done |]. split; congruence.
Qed.

(** ** The hooks, from the caller's side *)

Section HookLaws.

Variable resolve : string → NodeModule → string.
Variable orig : NodeModule → string → State → option (Value * State).

(** X9.  The [require] hook is transparent: it throws exactly when the
    original [require] throws, returns the export value the original
    returned, and on top of the original's effects only ever adds to the
    graph and to the watcher. *)
Theorem require_hook_is_conservative (caller : NodeModule) (file : string) (st : State) :
  (orig caller file st = None →
   Module_prototype_require resolve orig caller file st = None) ∧
  (∀ xports st1, orig caller file st = Some (xports, st1) →
     ∃ st2, Module_prototype_require resolve orig caller file st = Some (xports, st2) ∧
            _registry st2 = _registry st1 ∧ require_cache st2 = require_cache st1 ∧
            _cfg st2 = _cfg st1 ∧ heap st2 = heap st1 ∧ mainModule st2 = mainModule st1 ∧
            _watcher st1 ⊆ _watcher st2 ∧
            ∀ edge, edge ∈ _graph st1 → edge ∈ _graph st2).
Proof.
  split.
  - intros Hthrow. unfold Module_prototype_require. by rewrite Hthrow.
  - intros xports st1 Horig.
    rewrite (require_hook_cases resolve orig caller file st xports st1 Horig).
    destruct (isEligible (_cfg st1) (resolve file caller)); simpl;
      [| by exists st1].
    destruct (require_cache st1 !! resolve file caller) as [dependency|];
      [| by exists st1].
    eexists. split; [done |].
    destruct (is_not_main caller st1); simpl; repeat (split; [done |]).
    + split; [set_solver |]. intros edge Hin.
      apply GraphFacts.elem_of_addDependency. by left.
    + split; [set_solver | done].
Qed.

(** X10.  Requiring again what has just been required, the original
    [require] now finding it in its cache, changes neither the graph nor
    the watched set, nor anything but the record of calls. *)
Theorem repeated_require_changes_nothing (caller : NodeModule) (file : string)
    (st st1 : State) (xports xports' : Value) :
  Module_prototype_require resolve orig caller file st = Some (xports, st1) →
  orig caller file st1 = Some (xports', st1) →
  ∃ st2, Module_prototype_require resolve orig caller file st1 = Some (xports', st2) ∧
         _graph st2 = _graph st1 ∧ _watcher st2 = _watcher st1 ∧
         _registry st2 = _registry st1 ∧ require_cache st2 = require_cache st1 ∧
         _cfg st2 = _cfg st1 ∧ heap st2 = heap st1.
Proof.
  intros Hfirst Hagain.
  rewrite (require_hook_cases resolve orig caller file st1 xports' st1 Hagain).
  destruct (orig caller file st) as [[x sa]|] eqn:Horig;
    [| by unfold Module_prototype_require in Hfirst; rewrite Horig in Hfirst].
  rewrite (require_hook_cases resolve orig caller file st x sa Horig) in Hfirst.
  destruct (isEligible (_cfg sa) (resolve file caller)) eqn:Hel; simpl in Hfirst.
  - destruct (require_cache sa !! resolve file caller) as [dependency|] eqn:Hdep.
    + injection Hfirst as -> <-.
      assert (isEligible
                (_cfg (watcher_add (m_filename dependency)
                         (if is_not_main caller sa
                          then with_graph
                                 (Graph.addDependency (_graph sa) (m_filename caller)
                                    (m_filename dependency)) sa
                          else sa)))
                (resolve file caller) = true) as ->
        by (by destruct (is_not_main caller sa)).
      assert (require_cache
                (watcher_add (m_filename dependency)
                   (if is_not_main caller sa
                    then with_graph
                           (Graph.addDependency (_graph sa) (m_filename caller)
                              (m_filename dependency)) sa
                    else sa)) !! resolve file caller = Some dependency) as ->
        by (by destruct (is_not_main caller sa)).
      simpl. eexists. split; [done |].
      destruct (is_not_main caller sa) eqn:Hmain; unfold is_not_main in *; simpl;
        rewrite Hmain; simpl.
      * rewrite GraphFacts.addDependency_idempotent.
        repeat split; try done. apply set_eq. set_solver.
      * repeat split; try done. apply set_eq. set_solver.
    + injection Hfirst as -> <-. rewrite Hel, Hdep. simpl. by exists sa.
  - injection Hfirst as -> <-. rewrite Hel. simpl. by exists sa.
Qed.

(** X11.  Once the hook has recorded that [caller] requires [dependency],
    a change of the dependency reaches the caller: when both files are
    registered and the dependency has not accepted, [reload] of the
    dependency visits the caller's entry, and the dependency itself is no
    acceptee. *)
Theorem requirer_is_reloaded (caller dependency : NodeModule) (file : string)
    (st sa : State) (xports : Value) (e : RegistryEntry) :
  orig caller file st = Some (xports, sa) →
  isEligible (_cfg sa) (resolve file caller) = true →
  require_cache sa !! resolve file caller = Some dependency →
  is_not_main caller sa = true →
  registry_wf sa →
  _registry sa !! m_filename dependency = Some e →
  accepted e = false →
  is_Some (_registry sa !! m_filename caller) →
  m_filename caller ≠ m_filename dependency →
  ∃ st1 acceptees reloaded st2,
    Module_prototype_require resolve orig caller file st = Some (xports, st1) ∧
    (m_filename caller, m_filename dependency) ∈ _graph st1 ∧
    m_filename dependency ∈ _watcher st1 ∧
    reload_entry (m_filename dependency) st1 = Some (acceptees, reloaded, st2) ∧
    m_filename caller ∈ reloaded ∧
    m_filename dependency ∉ acceptees.
Proof.
  intros Horig Hel Hdep Hmain Hwf He Hno Hcaller Hne.
  rewrite (require_hook_cases resolve orig caller file st xports sa Horig).
  rewrite Hel, Hdep, Hmain. simpl.
  set (st1 := watcher_add _ _).
  assert (_registry st1 = _registry sa) as Hreg by done.
  assert (registry_wf st1) as Hwf1 by done.
  assert ((m_filename caller, m_filename dependency) ∈ _graph st1) as Hedge.
  { simpl. apply GraphFacts.elem_of_addDependency. by right. }
  assert (_registry st1 !! m_filename dependency = Some e) as He1 by (by rewrite Hreg).
  destruct (reload_entry_terminates (m_filename dependency) st1 (mk_is_Some _ _ He1))
    as ([[acceptees reloaded] st2] & Hrun).
  specialize (Hrun _ (Nat.lt_succ_diag_r _)).
  exists st1, acceptees, reloaded, st2.
  split; [done |]. split; [done |]. split; [simpl; set_solver |]. split; [done |].
  pose proof (Hwf1 _ _ He1) as Hfile. simpl in Hfile.
  rewrite (reload_unfold _ _ e) in Hrun by done.
  assert (m_filename caller ∈ dependants_of (m_filename dependency) e st1) as Hdeps.
  { unfold dependants_of. apply GraphFacts.elem_of_getDependantsOf.
    destruct (unload_fields _ e st1 He1) as (_ & -> & _).
    rewrite Hfile. apply GraphFacts.elem_of_removeDependencies. done. }
  rewrite Hno in Hrun. simpl in Hrun.
  rewrite bool_decide_eq_false_2 in Hrun
    by (intros Hnil; rewrite Hnil in Hdeps; by apply not_elem_of_nil in Hdeps).
  pose proof (advances_unload _ e [] ∅ st1 He1 (not_elem_of_empty _)) as Hun.
  apply (visit_dependants_advances _ _ _ _
           (reload_advances (size (_registry st1)))) in Hrun as [Hloop Hvisited].
  split.
  - apply (Hvisited _ Hdeps). simpl.
    destruct Hun as (Hsame & _). apply (same_entries_is_Some _ _ _ Hsame).
    by rewrite Hreg.
  - intros Hacc. destruct Hloop as (_ & _ & _ & _ & Hnew & _).
    destruct (Hnew _ Hacc) as [Hnil|(k & Hk & Hfresh & Hname)].
    { by apply not_elem_of_nil in Hnil. }
    rewrite entry_filename_wf in Hname
      by (destruct Hun as (Hsame & _); by apply (registry_wf_same st1)).
    subst k. set_solver.
Qed.

End HookLaws.

Section LoadHook.

Variable orig_load : NodeModule → string → State → option (NodeModule * State).

(** X12.  The [load] hook and eligibility.  For an ineligible file the hook
    is the original [load]: no registration, no control object, no
    patching.  For an eligible one the original [load] runs on a module
    that has its control object, on an entry that is registered; the
    eligibility is the one found before the file ran, while the
    [patchExports] option is read after it. *)
Theorem load_hook_by_eligibility (this : NodeModule) (file : string) (st : State) :
  (isEligible (_cfg st) file = false →
   Module_prototype_load orig_load this file st = orig_load this file st) ∧
  (isEligible (_cfg st) file = true →
   ∃ this1 st1,
     injectFile this file st = (this1, st1) ∧
     is_Some (m_hot this1) ∧
     (m_hot this = None → m_hot this1 = Some file ∧ is_Some (_registry st1 !! file)) ∧
     (orig_load this1 file st1 = None →
      Module_prototype_load orig_load this file st = None) ∧
     ∀ this2 st2, orig_load this1 file st1 = Some (this2, st2) →
       Module_prototype_load orig_load this file st
       = if cfg_patchExports (_cfg st2)
         then st3 ← patchExports this2 st2; Some (this2, st3)
         else Some (this2, st2)).
Proof.
  split; intros Hel; unfold Module_prototype_load; rewrite Hel; cbv zeta.
  - destruct (orig_load this file st) as [[this2 st2]|]; done.
  - destruct (injectFile this file st) as [this1 st1] eqn:Hinject.
    exists this1, st1. split; [done |].
    assert (is_Some (m_hot this1) ∧
            (m_hot this = None → m_hot this1 = Some file ∧ is_Some (_registry st1 !! file)))
      as [Hhot Hfresh].
    { unfold injectFile, registerFile in Hinject.
      destruct (m_hot this) as [k|] eqn:Hk.
      - injection Hinject as <- <-. rewrite Hk. split; [by eexists | done].
      - destruct (_registry st !! file) as [e|] eqn:He; injection Hinject as <- <-; simpl.
        + split; [by eexists |]. intros _. split; [done |]. rewrite He. by eexists.
        + split; [by eexists |]. intros _. split; [done |].
          rewrite lookup_insert_eq. by eexists. }
    split; [done |]. split; [done |].
    split; [by intros -> |].
    intros this2 st2 ->. simpl. done.
Qed.

End LoadHook.

(** ** Configuration *)

(** X13.  [configure] merges: an option left out keeps its value, so that
    configuring twice is configuring once with the later options on top of
    the earlier ones, and configuring with nothing changes nothing.  An
    [exclude] list that is given replaces the old one, the default
    [node_modules] pattern included. *)
Theorem configure_merges (first second : PartialOptions) (st : State) :
  configure second (configure first st) = configure (Object_assign first second) st ∧
  configure no_options st = st ∧
  configure first (configure first st) = configure first st ∧
  (∀ patterns, opt_exclude second = Some patterns →
     exclude (_cfg (configure second st)) = patterns) ∧
  (opt_exclude second = None →
     exclude (_cfg (configure second st)) = exclude (_cfg st)).
Proof.
  destruct st as [[s p x] g r w c m n h t].
  destruct first as [[s1|] [p1|] [x1|]], second as [[s2|] [p2|] [x2|]];
    (split; [reflexivity |]); (split; [reflexivity |]); (split; [reflexivity |]);
    (split; [intros patterns Hsome; simpl in *; congruence | intros Hnone; simpl in *; congruence]).
Qed.

(** ** [reload] and the configuration *)

Lemma unwatch_all_with_cfg (c : Options) (l : list string) (s : State) :
  foldl watcher_unwatch (with_cfg c s) l = with_cfg c (foldl watcher_unwatch s l).
Proof. revert s. induction l as [|d l IH]; intros s; simpl; [done |]. by rewrite <- IH. Qed.

Lemma unload_with_cfg (c : Options) (entry : string) (e : RegistryEntry) (st : State) :
  unload entry e (with_cfg c st) = with_cfg c (unload entry e st).
Proof.
  unfold unload. cbv zeta.
  assert (run_store entry e (with_cfg c st) = with_cfg c (run_store entry e st)) as ->
    by (unfold run_store; by destruct (store e)).
  rewrite <- unwatch_all_with_cfg. reflexivity.
Qed.

Lemma reload_with_cfg (c : Options) (fuel : nat) entry acc rel st :
  reload fuel entry acc rel (with_cfg c st)
  = (λ v : Visit, (v.1, with_cfg c v.2)) <$> reload fuel entry acc rel st.
Proof.
  revert entry acc rel st. induction fuel as [|fuel IH]; intros entry acc rel st; [done |].
  unfold reload; fold reload. change (_registry (with_cfg c st)) with (_registry st).
  destruct (_registry st !! entry) as [e|]; simpl; [| done].
  rewrite unload_with_cfg.
  change (_graph (with_cfg c (unload entry e st))) with (_graph (unload entry e st)).
  destruct (accepted e || _); [done |].
  generalize (Graph.getDependantsOf (_graph (unload entry e st)) (filename e)).
  generalize (unload entry e st). generalize ({[entry]} ∪ rel). clear st entry rel e.
  intros rel s ds. revert acc rel s.
  induction ds as [|d ds IHds]; intros acc rel s; [done |].
  rewrite !for_of_cons.
  assert (visit_dependant (reload fuel) d (acc, rel, with_cfg c s)
          = (λ v : Visit, (v.1, with_cfg c v.2))
              <$> visit_dependant (reload fuel) d (acc, rel, s)) as ->.
  { simpl. destruct (_registry s !! d) as [e|]; [| done].
    destruct (decide (d ∈ rel)); [done | apply IH]. }
  destruct (visit_dependant (reload fuel) d (acc, rel, s)) as [[[acc1 rel1] s1]|];
    simpl; [apply IHds | done].
Qed.

(** X14.  [reload] does not read the configuration: a change of the
    options, such as a new [exclude] list, does not alter what a change of
    a registered file reloads. *)
Theorem reload_ignores_configuration (opts : PartialOptions) (entry : string) (st : State) :
  reload_entry entry (configure opts st)
  = (λ v : Visit, (v.1, configure opts v.2)) <$> reload_entry entry st.
Proof.
  unfold reload_entry.
  change (configure opts st) with (with_cfg (_cfg (configure opts st)) st).
  change (_registry (with_cfg (_cfg (configure opts st)) st)) with (_registry st).
  rewrite reload_with_cfg.
  destruct (reload (S (size (_registry st))) entry [] ∅ st) as [[[acc rel] st']|] eqn:Hrun;
    [| done].
  apply reload_advances in Hrun as [Hadv _]; [| set_solver].
  destruct Hadv as (_ & _ & _ & _ & _ & _ & Hcfg & _).
  simpl. unfold configure. by rewrite Hcfg.
Qed.

(** ** The default exclusion *)

Lemma starts_with_Some (p s r : string) :
  starts_with p s = Some r ↔ s = p +:+ r.
Proof.
  revert s. induction p as [|a p IH]; intros s; simpl.
  - split; [by intros [= ->] | by intros ->].
  - destruct s as [|b s]; [split; intros; done |].
    case_decide as Hab.
    + subst b. rewrite IH. split; [by intros -> | by intros [= ->]].
    + split; [done | intros [= ? ?]; done].
Qed.

(** X15.  The default exclusion pattern [/[\/\\]node_modules[\/\\]/]
    matches exactly the paths in which [node_modules] stands between two
    separators, slash or backslash. *)
Theorem node_modules_re_matches (path : string) :
  node_modules_re path = true ↔
  ∃ before c d after,
    path = before +:+ String c ("node_modules" +:+ String d after) ∧
    is_separator c = true ∧ is_separator d = true.
Proof.
  split.
  - induction path as [|c rest IH]; cbn [node_modules_re]; [done |].
    intros [Hhere|Hlater]%orb_true_iff.
    + apply andb_true_iff in Hhere as [Hc Hd].
      destruct (starts_with "node_modules" rest) as [[|d after]|] eqn:Hrest; [done | | done].
      apply starts_with_Some in Hrest as ->.
      by exists "", c, d, after.
    + destruct (IH Hlater) as (before & c' & d & after & -> & Hc & Hd).
      by exists (String c before), c', d, after.
  - intros (before & c & d & after & -> & Hc & Hd).
    induction before as [|a before IH].
    + change ("" +:+ String c ("node_modules" +:+ String d after))
        with (String c ("node_modules" +:+ String d after)).
      cbn [node_modules_re]. rewrite Hc.
      assert (starts_with "node_modules" ("node_modules" +:+ String d after)
              = Some (String d after)) as -> by (by apply starts_with_Some).
      by rewrite Hd.
    + change (String a before +:+ String c ("node_modules" +:+ String d after))
        with (String a (before +:+ String c ("node_modules" +:+ String d after))).
      cbn [node_modules_re]. rewrite IH. apply orb_true_r.
Qed.

(** ** [patchExports] with nothing to patch *)

(** X16.  When neither the export value nor any of its own properties is
    constructor-like, [patchExports] does nothing at all, whether or not
    the module has a control object; when the export value is no plain
    object but constructor-like, and the control object is missing, it
    throws. *)
Theorem patchExports_without_constructors (m : NodeModule) (st : State) :
  (isConstructorLike (m_exports m) = false →
   (∀ key, isConstructorLike (get (m_exports m) key) = false) →
   patchExports m st = Some st) ∧
  (isPlainObject (m_exports m) = false →
   isConstructorLike (m_exports m) = true →
   m_hot m = None →
   patchExports m st = None).
Proof.
  split.
  - intros Hvalue Hown. unfold patchExports. rewrite Hvalue.
    destruct (isPlainObject (m_exports m)); [| done].
    generalize (getOwnPropertyNames (m_exports m)). intros keys.
    induction keys as [|key keys IH]; [done |].
    rewrite for_of_cons, Hown. simpl. apply IH.
  - intros Hplain Hvalue Hhot. unfold patchExports. rewrite Hplain, Hvalue.
    destruct (m_exports m) as [| | | | | |c|o] eqn:Hx; try done.
    unfold patch_value. by rewrite Hhot.
Qed.

(** ** [hot.patch] and the rest of the state *)

(** X17.  [hot.patch] writes to the patchees of its own entry and to
    nothing else the reload engine reads: every other entry, the other
    fields of its own, the graph, the watcher, the cache and the
    configuration are as they were. *)
Theorem patch_is_local (entry : string) (constructors : list addr) (st st' : State) :
  hot_patch entry constructors st = Some st' →
  (∀ k, k ≠ entry → _registry st' !! k = _registry st !! k) ∧
  (∀ e, _registry st !! entry = Some e →
     ∃ e', _registry st' !! entry = Some e' ∧ set_patchees ∅ e' = set_patchees ∅ e) ∧
  _graph st' = _graph st ∧ _watcher st' = _watcher st ∧
  require_cache st' = require_cache st ∧ _cfg st' = _cfg st ∧
  mainModule st' = mainModule st.
Proof.
  intros Hrun.
  destruct (hot_patch_registry _ _ _ _ Hrun) as (_ & Hg & Hw & Hc & Hcfg & _).
  assert ((∀ k, k ≠ entry → _registry st' !! k = _registry st !! k) ∧
          mainModule st' = mainModule st) as (Hother & Hmain).
  { pose proof Hrun as Hloop. unfold hot_patch in Hloop.
    apply (for_of_invariant
             (λ _ w, (∀ k, k ≠ entry → _registry w !! k = _registry st !! k) ∧
                     mainModule w = mainModule st)
             _ _ _ _) in Hloop; [done | done |].
    clear. intros _ current w w' _ (Hother & Hmain) Hbody.
    destruct (_registry w !! entry) as [e0|] eqn:He0; simpl in Hbody; [| done].
    destruct (constructor_of (heap w) current) as [[name p]|]; simpl in Hbody; [| done].
    destruct (for_of _ _ _) as [h|]; simpl in Hbody; [| done].
    injection Hbody as <-. simpl. split; [| done].
    intros k Hne. rewrite lookup_insert_ne by done. by apply Hother. }
  split; [done |]. split; [| done].
  intros e He. by apply (hot_patch_lookup entry constructors st).
Qed.

(** X18.  The first patch of a name rewrites nothing.  When none of the
    constructors handed to [hot.patch] has a history under its name, and no
    two of them share a name, the call returns and leaves every constructor
    and prototype as it was: a module's first load only records its
    constructors. *)
Theorem first_patch_only_records (entry : string) (e : RegistryEntry)
    (constructors : list addr) (st : State) :
  _registry st !! entry = Some e →
  (∀ c, c ∈ constructors →
        ∃ name p, constructor_of (heap st) c = Some (name, p) ∧ history_of e name = []) →
  NoDup (names_of (heap st) constructors) →
  ∃ st', hot_patch entry constructors st = Some st' ∧ heap st' = heap st.
Proof.
  intros Hk Hfresh Hnames. unfold hot_patch.
  set (s0 := log (EvPatch entry constructors) st).
  assert (heap s0 = heap st) as Hheap by done.
  assert (_registry s0 !! entry = Some e) as Hk0 by done.
  clearbody s0. clear Hk. revert s0 e Hheap Hk0 Hfresh Hnames.
  induction constructors as [|c cs IH]; intros s0 e Hheap Hk0 Hfresh Hnames.
  { exists s0. by rewrite for_of_nil. }
  destruct (Hfresh c (list_elem_of_here _ _)) as (name & p & Hc & Hnone).
  unfold names_of in Hnames. cbn [omap list_omap] in Hnames. rewrite Hc in Hnames.
  simpl in Hnames. apply NoDup_cons in Hnames as [Hnew Hrest].
  rewrite for_of_cons, Hk0. simpl. rewrite Hheap, Hc. simpl.
  unfold history_of in Hnone. rewrite Hnone, for_of_nil. simpl.
  apply (IH (with_heap (heap st)
               (with_registry
                  (<[entry := set_patchees (<[name := [c]]> (patchees e)) e]> (_registry s0))
                  s0))
            (set_patchees (<[name := [c]]> (patchees e)) e));
    [done | apply lookup_insert_eq | | done].
  intros c' Hc'. destruct (Hfresh c' (list_elem_of_further _ _ _ Hc')) as (name' & p' & Hc1 & Hn1).
  exists name', p'. split; [done |]. unfold history_of in *. simpl.
  rewrite lookup_insert_ne; [done |]. intros ->. apply Hnew.
  apply list_elem_of_omap. exists c'. split; [done |]. by rewrite Hc1.
Qed.

(** ** [hot.store] *)

(** X19.  [hot.store] keeps one procedure.  Calling it again replaces the
    procedure of the earlier call, neither call runs anything, and at the
    next reload it is the later procedure, alone, that fills the stash. *)
Theorem last_store_wins (st : State) (entry : string) (e : RegistryEntry)
    (earlier later : StashCallback) :
  registry_wf st →
  _registry st !! entry = Some e →
  let st2 := hot_store entry later (hot_store entry earlier st) in
  st2 = hot_store entry later st ∧
  trace st2 = trace st ∧
  _registry st2 !! entry = Some (set_store (Some later) e) ∧
  ∃ acceptees reloaded st3,
    reload_entry entry st2 = Some (acceptees, reloaded, st3) ∧
    _registry st3 !! entry = Some (set_stash (Some (later [])) (set_store (Some later) e)).
Proof.
  intros Hwf Hk st2.
  assert (st2 = hot_store entry later st) as Heq.
  { unfold st2, hot_store. simpl.
    assert (alter (set_store (Some later)) entry
              (alter (set_store (Some earlier)) entry (_registry st))
            = alter (set_store (Some later)) entry (_registry st)) as ->; [| done].
    apply map_eq. intros k. destruct (decide (entry = k)) as [<-|Hne].
    - rewrite !lookup_alter_eq. by destruct (_registry st !! entry).
    - by rewrite !lookup_alter_ne. }
  assert (_registry st2 !! entry = Some (set_store (Some later) e)) as Hk2
    by (rewrite Heq; simpl; by rewrite lookup_alter_eq, Hk).
  split; [done |]. split; [done |]. split; [done |].
  assert (registry_wf st2) as Hwf2 by (rewrite Heq; by apply registry_wf_alter).
  destruct (reload_entry_sweeps entry st2 Hwf2 (mk_is_Some _ _ Hk2))
    as (acceptees & reloaded & st3 & Hrun & Hin & _ & _ & _ & Hreg & _).
  exists acceptees, reloaded, st3. split; [done |].
  rewrite Hreg, Hk2. simpl. by rewrite decide_True by set_solver.
Qed.

(** ** The change handler *)

Section ChangeHandler.

Variable orig : NodeModule → string → State → option (Value * State).


End ChangeHandler.

(** ** Registration *)

(** X21.  [registerFile] keeps the first registration.  A file that is not
    registered gets a new entry holding the module it is registered with;
    a file that is registered keeps its entry, so that registering once
    more, be it with another module record, changes nothing.  Other files
    are never touched. *)
Theorem registerFile_keeps_first (m : NodeModule) (file : string) (st : State) :
  (registerFile m file st).1 = file ∧
  (_registry st !! file = None →
   _registry (registerFile m file st).2 !! file = Some (new_RegistryEntry m file)) ∧
  (is_Some (_registry st !! file) → (registerFile m file st).2 = st) ∧
  (∀ k, k ≠ file → _registry (registerFile m file st).2 !! k = _registry st !! k) ∧
  (∀ again, registerFile again file (registerFile m file st).2
            = (file, (registerFile m file st).2)).
Proof.
  destruct (_registry st !! file) as [e|] eqn:Hk.
  - assert (registerFile m file st = (file, st)) as -> by (unfold registerFile; by rewrite Hk).
    simpl. split; [done |]. split; [done |]. split; [done |]. split; [done |].
    intros again. unfold registerFile. by rewrite Hk.
  - assert (registerFile m file st
            = (file, with_registry (<[file := new_RegistryEntry m file]> (_registry st)) st))
      as -> by (unfold registerFile; by rewrite Hk).
    simpl. split; [done |]. split; [intros _; apply lookup_insert_eq |].
    split; [by intros [? ?] |].
    split; [intros k Hne; by apply lookup_insert_ne |].
    intros again. unfold registerFile. simpl. by rewrite lookup_insert_eq.
Qed.

(** ** The properties above, on the small programs *)


(** [b.js] changes, [b.js] and [c.js] requiring each other. *)
Lemma reload_cuts_outgoing_edges_on_cycle :
  ∃ acceptees reloaded st',
    reload_entry "/app/b.js" Scenario.mutual_loaded = Some (acceptees, reloaded, st') ∧
    ∀ dependent dependency,
      (dependent, dependency) ∈ _graph st' ↔
      (dependent, dependency) ∈ _graph Scenario.mutual_loaded ∧ dependent ∉ reloaded.
Proof.
  apply (reload_cuts_outgoing_edges Scenario.mutual_loaded "/app/b.js").
  - compute_done.
  - exists Scenario.mutual_b. vm_compute; reflexivity.
Defined.


Lemma reload_unwatches_orphans_on_chain :
  ∃ acceptees reloaded st',
    reload_entry "/app/c.js" Scenario.chain_loaded = Some (acceptees, reloaded, st') ∧
    _watcher st' ⊆ _watcher Scenario.chain_loaded ∧
    (∀ file, file ∈ _watcher Scenario.chain_loaded → file ∉ _watcher st' →
       Graph.getDependantsOf (_graph st') file = [] ∧
       ∃ k, k ∈ reloaded ∧ (k, file) ∈ _graph Scenario.chain_loaded) ∧
    (∀ file dependant,
       file ∈ _watcher Scenario.chain_loaded → (dependant, file) ∈ _graph st' →
       file ∈ _watcher st').
Proof.
  apply (reload_unwatches_orphans Scenario.chain_loaded "/app/c.js").
  - compute_done.
  - exists Scenario.chain_c. vm_compute; reflexivity.
Defined.

Lemma acceptees_are_settled_on_cycle :
  ∃ acceptees reloaded st',
    reload_entry "/app/b.js" Scenario.mutual_loaded = Some (acceptees, reloaded, st') ∧
    NoDup acceptees ∧
    ∀ x, x ∈ acceptees →
      x ∈ reloaded ∧ require_cache st' !! x = None ∧
      ∃ e, _registry Scenario.mutual_loaded !! x = Some e ∧
           (accepted e = true ∨ Graph.getDependantsOf (_graph st') x = []).
Proof.
  apply (acceptees_are_settled Scenario.mutual_loaded "/app/b.js").
  - compute_done.
  - exists Scenario.mutual_b. vm_compute; reflexivity.
Defined.

Lemma change_reloads_something_on_chain :
  ∃ acceptees reloaded st',
    reload_entry "/app/c.js" Scenario.chain_loaded = Some (acceptees, reloaded, st') ∧
    acceptees ≠ [].
Proof.
  apply (change_reloads_something Scenario.chain_loaded "/app/c.js").
  - compute_done.
  - intros dependent dependency Hedge.
    change (_graph Scenario.chain_loaded) with [("/app/b.js", "/app/c.js")] in Hedge.
    apply list_elem_of_singleton in Hedge. injection Hedge as -> ->.
    exists Scenario.chain_b. vm_compute; reflexivity.
  - exists Scenario.chain_c. vm_compute; reflexivity.
Defined.


Lemma entries_are_permanent_on_widget :
  ∃ e', _registry Scenario.widget_operated !! "/app/w.js" = Some e' ∧
        mod_ e' = mod_ Scenario.widget_entry ∧
        filename e' = filename Scenario.widget_entry.
Proof.
  apply (entries_are_permanent Scenario.widget_operations Scenario.widget_state
           Scenario.widget_operated "/app/w.js" Scenario.widget_entry).
  - vm_compute; reflexivity.
  - vm_compute; reflexivity.
Defined.

(** [b.js] of the chain requires [c.js] once more, and then again. *)
Lemma repeated_require_on_chain :
  ∃ st2,
    Module_prototype_require Node.resolveFilename (Node.require Scenario.chain 3)
      Scenario.chain_b_module "/app/c.js" Scenario.chain_c_required.2
    = Some (Scenario.chain_c_required.1, st2) ∧
    _graph st2 = _graph Scenario.chain_c_required.2 ∧
    _watcher st2 = _watcher Scenario.chain_c_required.2 ∧
    _registry st2 = _registry Scenario.chain_c_required.2 ∧
    require_cache st2 = require_cache Scenario.chain_c_required.2 ∧
    _cfg st2 = _cfg Scenario.chain_c_required.2 ∧ heap st2 = heap Scenario.chain_c_required.2.
Proof.
  apply (repeated_require_changes_nothing Node.resolveFilename
           (Node.require Scenario.chain 3) Scenario.chain_b_module "/app/c.js"
           Scenario.chain_loaded Scenario.chain_c_required.2
           Scenario.chain_c_required.1 Scenario.chain_c_required.1).
  - vm_compute; reflexivity.
  - vm_compute; reflexivity.
Defined.

Lemma requirer_is_reloaded_on_chain :
  ∃ st1 acceptees reloaded st2,
    Module_prototype_require Node.resolveFilename (Node.require Scenario.chain 3)
      Scenario.chain_b_module "/app/c.js" Scenario.chain_loaded
    = Some (Scenario.chain_c_required.1, st1) ∧
    (m_filename Scenario.chain_b_module, m_filename Scenario.chain_c_module) ∈ _graph st1 ∧
    m_filename Scenario.chain_c_module ∈ _watcher st1 ∧
    reload_entry (m_filename Scenario.chain_c_module) st1 = Some (acceptees, reloaded, st2) ∧
    m_filename Scenario.chain_b_module ∈ reloaded ∧
    m_filename Scenario.chain_c_module ∉ acceptees.
Proof.
  apply (requirer_is_reloaded Node.resolveFilename (Node.require Scenario.chain 3)
           Scenario.chain_b_module Scenario.chain_c_module "/app/c.js"
           Scenario.chain_loaded Scenario.chain_loaded Scenario.chain_c_required.1
           Scenario.chain_c).
  - vm_compute; reflexivity.
  - vm_compute; reflexivity.
  - vm_compute; reflexivity.
  - vm_compute; reflexivity.
  - compute_done.
  - vm_compute; reflexivity.
  - reflexivity.
  - exists Scenario.chain_b. vm_compute; reflexivity.
  - vm_compute. discriminate.
Defined.

Lemma patch_is_local_on_widget :
  (∀ k, k ≠ "/app/w.js" →
        _registry Scenario.widget_patched !! k = _registry Scenario.widget_state !! k) ∧
  (∀ e, _registry Scenario.widget_state !! "/app/w.js" = Some e →
     ∃ e', _registry Scenario.widget_patched !! "/app/w.js" = Some e' ∧
           set_patchees ∅ e' = set_patchees ∅ e) ∧
  _graph Scenario.widget_patched = _graph Scenario.widget_state ∧
  _watcher Scenario.widget_patched = _watcher Scenario.widget_state ∧
  require_cache Scenario.widget_patched = require_cache Scenario.widget_state ∧
  _cfg Scenario.widget_patched = _cfg Scenario.widget_state ∧
  mainModule Scenario.widget_patched = mainModule Scenario.widget_state.
Proof.
  apply (patch_is_local "/app/w.js" [3] Scenario.widget_state Scenario.widget_patched).
  vm_compute; reflexivity.
Defined.

Lemma first_patch_on_widget :
  ∃ st', hot_patch "/app/w.js" [1] Scenario.widget_first = Some st' ∧
         heap st' = heap Scenario.widget_first.
Proof.
  apply (first_patch_only_records "/app/w.js" Scenario.widget_first_entry [1] Scenario.widget_first).
  - vm_compute; reflexivity.
  - intros c Hc. apply list_elem_of_singleton in Hc as ->.
    exists "Widget", 2. split; vm_compute; reflexivity.
  - vm_compute. apply NoDup_singleton.
Defined.

Lemma last_store_wins_on_widget :
  hot_store "/app/w.js" Scenario.remember_closed
    (hot_store "/app/w.js" Scenario.remember_open Scenario.widget_state)
  = hot_store "/app/w.js" Scenario.remember_closed Scenario.widget_state ∧
  trace (hot_store "/app/w.js" Scenario.remember_closed
           (hot_store "/app/w.js" Scenario.remember_open Scenario.widget_state))
  = trace Scenario.widget_state ∧
  _registry (hot_store "/app/w.js" Scenario.remember_closed
               (hot_store "/app/w.js" Scenario.remember_open Scenario.widget_state)) !! "/app/w.js"
  = Some (set_store (Some Scenario.remember_closed) Scenario.widget_entry) ∧
  ∃ acceptees reloaded st3,
    reload_entry "/app/w.js"
      (hot_store "/app/w.js" Scenario.remember_closed
         (hot_store "/app/w.js" Scenario.remember_open Scenario.widget_state))
    = Some (acceptees, reloaded, st3) ∧
    _registry st3 !! "/app/w.js"
    = Some (set_stash (Some (Scenario.remember_closed []))
              (set_store (Some Scenario.remember_closed) Scenario.widget_entry)).
Proof.
  apply (last_store_wins Scenario.widget_state "/app/w.js" Scenario.widget_entry
           Scenario.remember_open Scenario.remember_closed).
  - compute_done.
  - vm_compute; reflexivity.
Defined.

(** A file under [node_modules] and a file of the application go through
    the [load] hook. *)
Lemma load_hook_on_vendor_and_app :
  Module_prototype_load Scenario.idle_load Scenario.widget_again
    "/node_modules/runner/index.js" (initial None)
  = Scenario.idle_load Scenario.widget_again "/node_modules/runner/index.js" (initial None) ∧
  ∃ this1 st1,
    injectFile Scenario.widget_again "/app/w.js" (initial None) = (this1, st1) ∧
    is_Some (m_hot this1) ∧
    (m_hot Scenario.widget_again = None →
     m_hot this1 = Some "/app/w.js" ∧ is_Some (_registry st1 !! "/app/w.js")) ∧
    (Scenario.idle_load this1 "/app/w.js" st1 = None →
     Module_prototype_load Scenario.idle_load Scenario.widget_again "/app/w.js" (initial None)
     = None) ∧
    ∀ this2 st2, Scenario.idle_load this1 "/app/w.js" st1 = Some (this2, st2) →
      Module_prototype_load Scenario.idle_load Scenario.widget_again "/app/w.js" (initial None)
      = if cfg_patchExports (_cfg st2)
        then st3 ← patchExports this2 st2; Some (this2, st3)
        else Some (this2, st2).
Proof.
  split.
  - apply (proj1 (load_hook_by_eligibility Scenario.idle_load Scenario.widget_again
                    "/node_modules/runner/index.js" (initial None))).
    vm_compute; reflexivity.
  - apply (proj2 (load_hook_by_eligibility Scenario.idle_load Scenario.widget_again
                    "/app/w.js" (initial None))).
    vm_compute; reflexivity.
Defined.

Lemma patchExports_on_plain_and_bare :
  patchExports Scenario.plain_module (initial None) = Some (initial None) ∧
  patchExports Scenario.bare_class_module (initial None) = None.
Proof.
  split.
  - apply (proj1 (patchExports_without_constructors Scenario.plain_module (initial None))).
    + reflexivity.
    + intros key. simpl. case_decide; reflexivity.
  - apply (proj2 (patchExports_without_constructors Scenario.bare_class_module
                    (initial None))); reflexivity.
Defined.

